(** * LC-3 virtual machine (lc3.c): shallow embedding and verified properties

    The emulator keeps its whole state in two global arrays, [reg] and
    [memory], and talks to the terminal through [getchar], [putc] and
    [check_key].  The embedding threads that state explicitly through a
    small state-and-fault monad:

    - a [uint16_t] value is a [Z] in [0, 2^16); every conversion back to
      [uint16_t] after C's integer promotion is written out as [wrap16];
    - [reg] and [memory] are finite maps from index to cell (globals are
      zero-initialised, so a cell without an entry holds 0);
    - the declared length of [memory] is a constant, and an index outside
      it is not a cell of the array: the access yields [Undefined];
    - the terminal is a pair of byte streams, the keystrokes still to be
      read and the bytes written so far. *)

From Stdlib Require Import ZArith List Lia Bool.
From Stdlib Require Import Strings.Byte Strings.Ascii Strings.String.
From stdpp Require Import base option gmap list.

Local Open Scope Z_scope.

(** ** Machine words *)

Definition UINT16_MAX : Z := 0xFFFF.

(** Conversion of a C [int] to [uint16_t]. *)
Definition wrap16 (v : Z) : Z := v mod 0x10000.

(** [sign_extend]: the argument is a [uint16_t]; [0xFFFF << bit_count] is
    computed on [int] and the or-ed value is converted back on assignment. *)
Definition sign_extend (x : Z) (bit_count : Z) : Z :=
  if Z.land (Z.shiftr x (bit_count - 1)) 1 =? 0
  then x
  else wrap16 (Z.lor x (Z.shiftl 0xFFFF bit_count)).

Definition swap16 (x : Z) : Z :=
  wrap16 (Z.lor (Z.shiftl x 8) (Z.shiftr x 8)).

(** ** Enumerations of the source *)

Module Reg.
Definition R_R0 : Z := 0.
Definition R_R1 : Z := 1.
Definition R_R2 : Z := 2.
Definition R_R3 : Z := 3.
Definition R_R4 : Z := 4.
Definition R_R5 : Z := 5.
Definition R_R6 : Z := 6.
Definition R_R7 : Z := 7.
Definition R_PC : Z := 8.
Definition R_COND : Z := 9.
Definition R_COUNT : Z := 10.
End Reg.
Export Reg.

Module Flag.
Definition FL_POS : Z := Z.shiftl 1 0.
Definition FL_ZRO : Z := Z.shiftl 1 1.
Definition FL_NEG : Z := Z.shiftl 1 2.
End Flag.
Export Flag.

Module Op.
Definition OP_BR : Z := 0.
Definition OP_ADD : Z := 1.
Definition OP_LD : Z := 2.
Definition OP_ST : Z := 3.
Definition OP_JSR : Z := 4.
Definition OP_AND : Z := 5.
Definition OP_LDR : Z := 6.
Definition OP_STR : Z := 7.
Definition OP_RTI : Z := 8.
Definition OP_NOT : Z := 9.
Definition OP_LDI : Z := 10.
Definition OP_STI : Z := 11.
Definition OP_JMP : Z := 12.
Definition OP_RES : Z := 13.
Definition OP_LEA : Z := 14.
Definition OP_TRAP : Z := 15.
End Op.
Export Op.

Definition MR_KBSR : Z := 0xFE00.
Definition MR_KBDR : Z := 0xFE02.

Module Trap.
Definition TRAP_GETC : Z := 0x20.
Definition TRAP_OUT : Z := 0x21.
Definition TRAP_PUTS : Z := 0x22.
Definition TRAP_IN : Z := 0x23.
Definition TRAP_PUTSP : Z := 0x24.
Definition TRAP_HALT : Z := 0x25.
End Trap.
Export Trap.

Definition PC_START : Z := 0x3000.

(** ** Machine state *)

(** [uint16_t memory[UINT16_MAX]]: the number of cells of the array. *)
Definition MEMORY_SIZE : Z := UINT16_MAX.

Record machine := Machine {
  reg : gmap Z Z;           (* uint16_t reg[R_COUNT] *)
  memory : gmap Z Z;        (* uint16_t memory[UINT16_MAX] *)
  stdin : list byte;        (* keystrokes not yet consumed *)
  stdout : list byte        (* bytes written, oldest first *)
}.

Definition with_reg (f : gmap Z Z -> gmap Z Z) (s : machine) : machine :=
  Machine (f (reg s)) (memory s) (stdin s) (stdout s).
Definition with_memory (f : gmap Z Z -> gmap Z Z) (s : machine) : machine :=
  Machine (reg s) (f (memory s)) (stdin s) (stdout s).
Definition with_stdin (l : list byte) (s : machine) : machine :=
  Machine (reg s) (memory s) l (stdout s).
Definition with_stdout (l : list byte) (s : machine) : machine :=
  Machine (reg s) (memory s) (stdin s) l.

(** ** The state-and-fault monad *)

Inductive result (A : Type) : Type :=
| Ok (a : A) (s : machine)     (* the statement completed *)
| Aborted (s : machine)        (* abort() was called in state s *)
| Undefined.                   (* an array was indexed outside its bounds *)
Arguments Ok {A} a s.
Arguments Aborted {A} s.
Arguments Undefined {A}.

Definition M (A : Type) : Type := machine -> result A.

Definition ret {A} (a : A) : M A := fun s => Ok a s.

Definition bind {A B} (m : M A) (k : A -> M B) : M B :=
  fun s =>
    match m s with
    | Ok a s' => k a s'
    | Aborted s' => Aborted s'
    | Undefined => Undefined
    end.

Declare Scope lc3_scope.
Delimit Scope lc3_scope with lc3.
Notation "'do' x <- m ; k" := (bind m (fun x => k))
  (at level 10, x name, m at level 100, k at level 200) : lc3_scope.
Notation "m ;; k" := (bind m (fun _ => k))
  (at level 100, k at level 200, right associativity) : lc3_scope.
Local Open Scope lc3_scope.

Definition abort {A} : M A := fun s => Aborted s.
Definition undefined {A} : M A := fun _ => Undefined.

(** A cell of a global array; the arrays are zero-initialised, so a cell
    that was never assigned holds 0. *)
Definition cell (m : gmap Z Z) (i : Z) : Z := default 0 (m !! i).

(** *** Register file *)

(** [reg[r]] as an rvalue.  Every index the program computes is a 3-bit
    field or one of the constants [R_PC], [R_COND]. *)
Definition reg_get (r : Z) : M Z := fun s => Ok (cell (reg s) r) s.

(** [reg[r] = v], with the conversion of [v] to [uint16_t]. *)
Definition reg_set (r : Z) (v : Z) : M unit :=
  fun s => Ok tt (with_reg <[r := wrap16 v]> s).

(** *** Memory array *)

(** [memory[a]] as an rvalue. *)
Definition memory_get (a : Z) : M Z :=
  fun s =>
    if (0 <=? a) && (a <? MEMORY_SIZE) then Ok (cell (memory s) a) s
    else Undefined.

(** [memory[a] = v]. *)
Definition memory_set (a : Z) (v : Z) : M unit :=
  fun s =>
    if (0 <=? a) && (a <? MEMORY_SIZE)
    then Ok tt (with_memory <[a := wrap16 v]> s)
    else Undefined.

(** *** Terminal *)

Definition EOF : Z := -1.

(** [getchar()]: the next byte as an [unsigned char] converted to [int],
    or [EOF] when the input is exhausted. *)
Definition getchar : M Z :=
  fun s =>
    match stdin s with
    | [] => Ok EOF s
    | b :: rest => Ok (Z.of_N (Byte.to_N b)) (with_stdin rest s)
    end.

(** [check_key()]: non-zero when a keystroke is waiting. *)
Definition check_key : M Z :=
  fun s =>
    match stdin s with
    | [] => Ok 0 s
    | _ :: _ => Ok 1 s
    end.

(** The byte a C [int] becomes when written by [putc] (converted to
    [unsigned char]). *)
Definition byte_of_Z (c : Z) : byte :=
  match Byte.of_N (Z.to_N (c mod 0x100)) with
  | Some b => b
  | None => x00
  end.

Definition putc (c : Z) : M unit :=
  fun s => Ok tt (with_stdout (stdout s ++ [byte_of_Z c]) s).

(** [printf] of a string without conversions. *)
Definition put_string (str : string) : M unit :=
  fun s => Ok tt (with_stdout (stdout s ++ list_byte_of_string str) s).

(** [puts]: the string and a newline. *)
Definition newline : string := String "010"%char EmptyString.
Definition puts (str : string) : M unit := put_string (str ++ newline).

(** Conversion of an [int] to [char] (signed, 8 bits). *)
Definition to_char (c : Z) : Z :=
  let b := c mod 0x100 in if b <? 0x80 then b else b - 0x100.

(** ** Flags *)

Definition update_flags (r : Z) : M unit :=
  do v <- reg_get r;
  if v =? 0 then reg_set R_COND FL_ZRO
  else if negb (Z.shiftr v 15 =? 0) then reg_set R_COND FL_NEG
  else reg_set R_COND FL_POS.

(** ** Memory access *)

Definition mem_write (address : Z) (val : Z) : M unit :=
  memory_set address val.

Definition mem_read (address : Z) : M Z :=
  (if address =? MR_KBSR then
     do k <- check_key;
     if negb (k =? 0) then
       memory_set MR_KBSR (Z.shiftl 1 15) ;;
       do c <- getchar;
       memory_set MR_KBDR c
     else
       memory_set MR_KBSR 0
   else ret tt) ;;
  memory_get address.

(** ** Image loader *)

(** [fread(p, sizeof(uint16_t), count, file)] into the memory array, on the
    little-endian host the loader is written for ([swap16] afterwards turns
    the big-endian file words around).  [file] is what is left of the
    stream; the result is the number of complete items stored.  A trailing
    odd byte is copied into the low byte of the next cell without being
    counted as an item. *)
Fixpoint fread_words (count : nat) (file : list byte) (p : Z) : M nat :=
  match count with
  | O => ret O
  | S count' =>
      match file with
      | [] => ret O
      | [b0] =>
          do old <- memory_get p;
          memory_set p (Z.lor (Z.land old 0xFF00) (Z.of_N (Byte.to_N b0))) ;;
          ret O
      | b0 :: b1 :: rest =>
          memory_set p (Z.of_N (Byte.to_N b0) + 0x100 * Z.of_N (Byte.to_N b1)) ;;
          do n <- fread_words count' rest (p + 1);
          ret (S n)
      end
  end.

(** [while (read-- > 0) { *p = swap16( *p ); ++p; }] *)
Fixpoint swap_words (read : nat) (p : Z) : M unit :=
  match read with
  | O => ret tt
  | S read' =>
      do w <- memory_get p;
      memory_set p (swap16 w) ;;
      swap_words read' (p + 1)
  end.

(** [read_image_file].  The result of the first [fread] is not looked at.
    When the stream holds fewer than two bytes that [fread] consumes all of
    it and leaves [origin] indeterminate; the second [fread] then finds the
    stream exhausted, stores nothing and returns 0 whatever [origin] is. *)
Definition read_image_file (file : list byte) : M unit :=
  match file with
  | b0 :: b1 :: rest =>
      let origin := swap16 (Z.of_N (Byte.to_N b0) + 0x100 * Z.of_N (Byte.to_N b1)) in
      let max_read := wrap16 (UINT16_MAX - origin) in
      let p := origin in
      do read <- fread_words (Z.to_nat max_read) rest p;
      swap_words read p
  | _ => ret tt
  end.

(** [read_image]: [fopen] is the lookup of the path in the file system. *)
Definition read_image (fs : string -> option (list byte)) (image_path : string) : M Z :=
  match fs image_path with
  | None => ret 0
  | Some file => read_image_file file ;; ret 1
  end.

(** ** Trap routines *)

(** The [while ( *c )] loop of [TRAP_PUTS]; [c] is the index into [memory]
    the pointer stands at.  [n] counts the cells after [c] up to the end
    of the array: it only makes the recursion structural, since a pointer
    that has left the array is caught by [memory_get] first. *)
Fixpoint puts_loop (n : nat) (c : Z) : M unit :=
  do w <- memory_get c;
  if w =? 0 then ret tt
  else
    putc (to_char w) ;;
    match n with
    | O => undefined
    | S n' => puts_loop n' (c + 1)
    end.

(** The loop of [TRAP_PUTSP]. *)
Fixpoint putsp_loop (n : nat) (c : Z) : M unit :=
  do w <- memory_get c;
  if w =? 0 then ret tt
  else
    let char1 := to_char (Z.land w 0xFF) in
    putc char1 ;;
    let char2 := to_char (Z.shiftr w 8) in
    (if negb (char2 =? 0) then putc char2 else ret tt) ;;
    match n with
    | O => undefined
    | S n' => putsp_loop n' (c + 1)
    end.

Definition cells_from (c : Z) : nat := Z.to_nat (MEMORY_SIZE - c).

(** [restore_input_buffering()] only touches the terminal mode. *)
Definition restore_input_buffering : M unit := ret tt.

(** The inner [switch (instr & 0xFF)]; the value is that of [running]
    afterwards. *)
Definition trap_switch (instr : Z) : M bool :=
  let v := Z.land instr 0xFF in
  if v =? TRAP_GETC then
    do c <- getchar;
    reg_set R_R0 c ;;
    update_flags R_R0 ;;
    ret true
  else if v =? TRAP_OUT then
    do r <- reg_get R_R0;
    putc (to_char r) ;;
    ret true
  else if v =? TRAP_PUTS then
    do c <- reg_get R_R0;
    puts_loop (cells_from c) c ;;
    ret true
  else if v =? TRAP_IN then
    put_string "Enter a character: " ;;
    do g <- getchar;
    let c := to_char g in
    putc c ;;
    reg_set R_R0 c ;;
    update_flags R_R0 ;;
    ret true
  else if v =? TRAP_PUTSP then
    do c <- reg_get R_R0;
    putsp_loop (cells_from c) c ;;
    ret true
  else if v =? TRAP_HALT then
    puts "HALT" ;;
    ret false
  else
    (* case OP_RES: case OP_RTI: default: *)
    abort.

(** ** Decoder and executor *)

(** Instruction fields. *)
Definition DR (instr : Z) : Z := Z.land (Z.shiftr instr 9) 0x7.
Definition SR1 (instr : Z) : Z := Z.land (Z.shiftr instr 6) 0x7.

Definition case_OP_ADD (instr : Z) : M unit :=
  let r0 := DR instr in
  let r1 := SR1 instr in
  let imm_flag := Z.land (Z.shiftr instr 5) 0x1 in
  (if negb (imm_flag =? 0) then
     let imm5 := sign_extend (Z.land instr 0x1F) 5 in
     do a <- reg_get r1;
     reg_set r0 (a + imm5)
   else
     let r2 := Z.land instr 0x7 in
     do a <- reg_get r1;
     do b <- reg_get r2;
     reg_set r0 (a + b)) ;;
  update_flags r0.

Definition case_OP_AND (instr : Z) : M unit :=
  let r0 := DR instr in
  let r1 := SR1 instr in
  let imm_flag := Z.land (Z.shiftr instr 5) 0x1 in
  (if negb (imm_flag =? 0) then
     let imm5 := sign_extend (Z.land instr 0x1F) 5 in
     do a <- reg_get r1;
     reg_set r0 (Z.land a imm5)
   else
     let r2 := Z.land instr 0x7 in
     do a <- reg_get r1;
     do b <- reg_get r2;
     reg_set r0 (Z.land a b)) ;;
  update_flags r0.

Definition case_OP_NOT (instr : Z) : M unit :=
  let r0 := DR instr in
  let r1 := SR1 instr in
  do a <- reg_get r1;
  reg_set r0 (Z.lnot a) ;;
  update_flags r0.

Definition case_OP_BR (instr : Z) : M unit :=
  let pc_offset := sign_extend (Z.land instr 0x1FF) 9 in
  let cond_flag := Z.land (Z.shiftr instr 9) 0x7 in
  do cond <- reg_get R_COND;
  if negb (Z.land cond_flag cond =? 0) then
    do pc <- reg_get R_PC;
    reg_set R_PC (pc + pc_offset)
  else ret tt.

Definition case_OP_JMP (instr : Z) : M unit :=
  let r1 := SR1 instr in
  do a <- reg_get r1;
  reg_set R_PC a.

Definition case_OP_JSR (instr : Z) : M unit :=
  let long_flag := Z.land (Z.shiftr instr 11) 1 in
  do pc <- reg_get R_PC;
  reg_set R_R7 pc ;;
  if negb (long_flag =? 0) then
    let long_pc_offset := sign_extend (Z.land instr 0x7FF) 11 in
    do pc <- reg_get R_PC;
    reg_set R_PC (pc + long_pc_offset)
  else
    let r1 := SR1 instr in
    do a <- reg_get r1;
    reg_set R_PC a.

Definition case_OP_LD (instr : Z) : M unit :=
  let r0 := DR instr in
  let pc_offset := sign_extend (Z.land instr 0x1FF) 9 in
  do pc <- reg_get R_PC;
  do v <- mem_read (wrap16 (pc + pc_offset));
  reg_set r0 v ;;
  update_flags r0.

Definition case_OP_LDI (instr : Z) : M unit :=
  let r0 := DR instr in
  let pc_offset := sign_extend (Z.land instr 0x1FF) 9 in
  do pc <- reg_get R_PC;
  do a <- mem_read (wrap16 (pc + pc_offset));
  do v <- mem_read a;
  reg_set r0 v ;;
  update_flags r0.

Definition case_OP_LDR (instr : Z) : M unit :=
  let r0 := DR instr in
  let r1 := SR1 instr in
  let offset := sign_extend (Z.land instr 0x3F) 6 in
  do b <- reg_get r1;
  do v <- mem_read (wrap16 (b + offset));
  reg_set r0 v ;;
  update_flags r0.

Definition case_OP_LEA (instr : Z) : M unit :=
  let r0 := DR instr in
  let pc_offset := sign_extend (Z.land instr 0x1FF) 9 in
  do pc <- reg_get R_PC;
  reg_set r0 (pc + pc_offset) ;;
  update_flags r0.

Definition case_OP_ST (instr : Z) : M unit :=
  let r0 := DR instr in
  let pc_offset := sign_extend (Z.land instr 0x1FF) 9 in
  do pc <- reg_get R_PC;
  do v <- reg_get r0;
  mem_write (wrap16 (pc + pc_offset)) v.

Definition case_OP_STI (instr : Z) : M unit :=
  let r0 := DR instr in
  let pc_offset := sign_extend (Z.land instr 0x1FF) 9 in
  do pc <- reg_get R_PC;
  do a <- mem_read (wrap16 (pc + pc_offset));
  do v <- reg_get r0;
  mem_write a v.

Definition case_OP_STR (instr : Z) : M unit :=
  let r0 := DR instr in
  let r1 := SR1 instr in
  let offset := sign_extend (Z.land instr 0x3F) 6 in
  do b <- reg_get r1;
  do v <- reg_get r0;
  mem_write (wrap16 (b + offset)) v.

Definition case_OP_TRAP (instr : Z) : M bool :=
  do pc <- reg_get R_PC;
  reg_set R_R7 pc ;;
  do running <- trap_switch instr;
  restore_input_buffering ;;
  ret running.

(** [uint16_t instr = mem_read(reg[R_PC]++);] *)
Definition fetch : M Z :=
  do pc <- reg_get R_PC;
  reg_set R_PC (pc + 1) ;;
  mem_read pc.

(** The outer [switch (op)], cases in the order of the source.  It has no
    [default] label of its own: the labels [case OP_RES], [case OP_RTI] and
    [default] stand inside the [switch] on the trap vector, which they
    belong to.  The value is that of [running] after the iteration. *)
Definition execute (instr : Z) : M bool :=
  let op := Z.shiftr instr 12 in
  if op =? OP_ADD then case_OP_ADD instr ;; ret true
  else if op =? OP_AND then case_OP_AND instr ;; ret true
  else if op =? OP_NOT then case_OP_NOT instr ;; ret true
  else if op =? OP_BR then case_OP_BR instr ;; ret true
  else if op =? OP_JMP then case_OP_JMP instr ;; ret true
  else if op =? OP_JSR then case_OP_JSR instr ;; ret true
  else if op =? OP_LD then case_OP_LD instr ;; ret true
  else if op =? OP_LDI then case_OP_LDI instr ;; ret true
  else if op =? OP_LDR then case_OP_LDR instr ;; ret true
  else if op =? OP_LEA then case_OP_LEA instr ;; ret true
  else if op =? OP_ST then case_OP_ST instr ;; ret true
  else if op =? OP_STI then case_OP_STI instr ;; ret true
  else if op =? OP_STR then case_OP_STR instr ;; ret true
  else if op =? OP_TRAP then case_OP_TRAP instr
  else ret true.

(** One iteration of [while (running)]. *)
Definition step : M bool :=
  do instr <- fetch;
  execute instr.

(** The loop itself, cut off after [fuel] iterations; the value tells
    whether the machine is still running at that point. *)
Fixpoint run (fuel : nat) : M bool :=
  match fuel with
  | O => ret true
  | S fuel' =>
      do running <- step;
      if running then run fuel' else ret false
  end.

(** The assignments of [main] between the loading of the images and the
    loop. *)
Definition setup : M unit :=
  reg_set R_COND FL_ZRO ;;
  reg_set R_PC PC_START.

(** The state in which the loop is entered: [memory] as the loader left
    it, all other globals still zero. *)
Definition entry_state (mem : gmap Z Z) (keys : list byte) : machine :=
  match setup (Machine ∅ mem keys []) with
  | Ok _ s => s
  | _ => Machine ∅ mem keys []
  end.

(** States the loop passes through, and the state a fault is raised in. *)
Inductive reachable : machine -> Prop :=
| reachable_entry mem keys : reachable (entry_state mem keys)
| reachable_step s running s' :
    reachable s -> step s = Ok running s' -> reachable s'
| reachable_abort s s' :
    reachable s -> step s = Aborted s' -> reachable s'.

(** ** The program

    [main] from its arguments to the end of the process.  The value of
    the computation is the exit code, or [None] when the bound on the
    iterations of the loop was reached with the machine still running.
    [signal] and [disable_input_buffering] only concern the terminal and
    the delivery of SIGINT. *)

(** [printf("failed to load image: %s\n", path)] *)
Definition report_failed_image (path : string) : M unit :=
  put_string ("failed to load image: " ++ path ++ newline).

(** The [for] loop over [argv[1..]]; [rest_of_main] is what follows it. *)
Fixpoint load_images (fs : string -> option (list byte)) (paths : list string)
    (rest_of_main : M (option Z)) : M (option Z) :=
  match paths with
  | [] => rest_of_main
  | path :: paths' =>
      do ok <- read_image fs path;
      if ok =? 0 then
        report_failed_image path ;;
        ret (Some 1)                      (* exit(1) *)
      else load_images fs paths' rest_of_main
  end.

Definition main (fs : string -> option (list byte)) (argv : list string)
    (fuel : nat) : M (option Z) :=
  if Z.of_nat (length argv) <? 2 then
    put_string ("lc3 [image-file1] ..." ++ newline) ;;
    ret (Some 2)                          (* exit(2) *)
  else
    load_images fs (tail argv)
      (setup ;;
       do running <- run fuel;
       if running then ret None
       else ret (Some 0)).                (* main returns *)

(** * Vocabulary of the properties *)

(** The value of a word read as a 16-bit two's-complement integer. *)
Definition signed16 (v : Z) : Z := if v <? 0x8000 then v else v - 0x10000.

(** The widths [sign_extend] is called with. *)
Definition field_width (n : Z) : Prop := n = 5 \/ n = 6 \/ n = 9 \/ n = 11.

Definition one_hot (c : Z) : Prop := c = FL_POS \/ c = FL_ZRO \/ c = FL_NEG.

(** The flag that describes the sign of a word. *)
Definition sign_flag (v : Z) : Z :=
  if v =? 0 then FL_ZRO else if Z.testbit v 15 then FL_NEG else FL_POS.

Definition opcode (instr : Z) : Z := Z.shiftr instr 12.
Definition trap_vector (instr : Z) : Z := Z.land instr 0xFF.

(** The general-purpose register an instruction loads with a result and
    sets the flags from, if it is one of those that do. *)
Definition written_register (instr : Z) : option Z :=
  if existsb (Z.eqb (opcode instr))
       [OP_ADD; OP_AND; OP_NOT; OP_LD; OP_LDI; OP_LDR; OP_LEA]
  then Some (DR instr)
  else if (opcode instr =? OP_TRAP)
          && existsb (Z.eqb (trap_vector instr)) [TRAP_GETC; TRAP_IN]
  then Some R_R0
  else None.

Definition defined_trap (v : Z) : bool :=
  existsb (Z.eqb v)
    [TRAP_GETC; TRAP_OUT; TRAP_PUTS; TRAP_IN; TRAP_PUTSP; TRAP_HALT].

(** A byte stream that ends inside a word, or before the origin word is
    complete. *)
Definition truncated_mid_word (file : list byte) : bool :=
  (length file <? 2)%nat || Nat.odd (length file).

(** Weakest precondition of a computation for a postcondition [Q] on
    normal completion and [E] on a fault; an out-of-bounds access
    satisfies any specification. *)
Definition wp {A} (m : M A) (Q : A -> machine -> Prop) (E : machine -> Prop)
    (s : machine) : Prop :=
  match m s with
  | Ok a s' => Q a s'
  | Aborted s' => E s'
  | Undefined => True
  end.

(** A computation keeps the property [P] of the machine state, on normal
    completion and on a fault. *)
Definition keeps {A} (P : machine -> Prop) (m : M A) : Prop :=
  forall s, P s -> wp m (fun _ s' => P s') P s.

Definition flags_ok (s : machine) : Prop := one_hot (cell (reg s) R_COND).

(** The flag register describes the sign of the word in register [r]. *)
Definition flags_match (r : Z) (s : machine) : Prop :=
  let v := cell (reg s) r in
  let c := cell (reg s) R_COND in
  0 <= v < 0x10000 /\ one_hot c /\
  (c = FL_ZRO <-> v = 0) /\
  (c = FL_NEG <-> Z.testbit v 15 = true) /\
  (c = FL_POS <-> v <> 0 /\ Z.testbit v 15 = false) /\
  (c = FL_ZRO <-> signed16 v = 0) /\
  (c = FL_NEG <-> signed16 v < 0) /\
  (c = FL_POS <-> 0 < signed16 v).

(** What the loader leaves alone. *)
Definition same_outside_memory (s s' : machine) : Prop :=
  reg s' = reg s /\ stdin s' = stdin s /\ stdout s' = stdout s.

(** The [k] words at the addresses [c], [c + 1], ... in that order. *)
Fixpoint cells_at (mem : gmap Z Z) (c : Z) (k : nat) : list Z :=
  match k with
  | O => []
  | S k' => cell mem c :: cells_at mem (c + 1) k'
  end.

(** The bytes PUTS writes for a non-zero word: its low byte. *)
Definition puts_bytes (w : Z) : list byte := [byte_of_Z (Z.land w 0xFF)].

(** The bytes PUTSP writes for a non-zero word: its low byte, then its
    high byte unless that is zero. *)
Definition putsp_bytes (w : Z) : list byte :=
  byte_of_Z (Z.land w 0xFF) ::
  (let high := Z.land (Z.shiftr w 8) 0xFF in
   if high =? 0 then [] else [byte_of_Z high]).

Definition nonzero (w : Z) : Prop := w <> 0.

(** ** Concrete machines *)

Definition mem_of_list (origin : Z) (ws : list Z) : gmap Z Z :=
  list_to_map (zip (seqZ origin (Z.of_nat (length ws))) ws).

(** LEA R0, #2 ; PUTS ; HALT ; .STRINGZ "HI" *)
Definition hello : gmap Z Z :=
  mem_of_list 0x3000 [0xE002; 0xF022; 0xF025; 0x48; 0x49; 0x00].

(** RES ; HALT -- a reserved opcode in front of the halt trap. *)
Definition reserved_then_halt : gmap Z Z :=
  mem_of_list 0x3000 [0xD000; 0xF025].

(** JSR #2 at the entry address. *)
Definition jsr_program : gmap Z Z := mem_of_list 0x3000 [0x4802].

(** TRAP x26, a vector without a routine. *)
Definition bad_trap : gmap Z Z := mem_of_list 0x3000 [0xF026].

(** The machine before anything is loaded: all globals zero. *)
Definition power_on : machine := Machine ∅ ∅ [] [].

(** A file system that holds one file, under every name. *)
Definition one_file (file : list byte) : string -> option (list byte) :=
  fun _ => Some file.

(** Origin 0x3000 followed by a single byte: the stream ends inside the
    first program word. *)
Definition truncated_image : list byte := [x30; x00; x12].

(** Origin 0x3000; LEA R0, #2 ; TRAP HALT. *)
Definition lea_halt_image : list byte := [x30; x00; xe0; x02; xf0; x25].

(** [hello] after its first instruction: R0 points at the string. *)
Definition hello_at_puts : machine :=
  match step (entry_state hello []) with
  | Ok _ s => s
  | _ => power_on
  end.

(** ** Vocabulary of the further properties *)

(** A value that fits a [uint16_t]. *)
Definition word16 (v : Z) : Prop := 0 <= v < 0x10000.

(** A word as it stands in an image file: high byte first. *)
Definition word_bytes (w : Z) : list byte :=
  [byte_of_Z (Z.shiftr w 8); byte_of_Z w].

(** An image file: the origin, then the words. *)
Definition encode_image (origin : Z) (ws : list Z) : list byte :=
  word_bytes origin ++ flat_map word_bytes ws.

(** Memory [m'] is memory [m] with the words [vs] stored from address [p]
    on and nothing else changed. *)
Definition stored (m m' : gmap Z Z) (p : Z) (vs : list Z) : Prop :=
  (forall (i : nat) v, vs !! i = Some v -> cell m' (p + Z.of_nat i) = v) /\
  (forall a, a < p \/ p + Z.of_nat (length vs) <= a -> cell m' a = cell m a).

(** The number of words the loader can store from [origin] on. *)
Definition max_words (origin : Z) : nat := Z.to_nat (UINT16_MAX - origin).



(** The output so far extends [out], and the pending input is what is
    left of [keys]. *)
Definition output_extends (out : list byte) (s : machine) : Prop :=
  exists written, stdout s = out ++ written.

(** The number an [n]-bit field stands for in two's complement. *)
Definition signed_field (n x : Z) : Z :=
  if Z.testbit x (n - 1) then x - 2 ^ n else x.

(** The second operand of ADD and AND: the 5-bit immediate as a signed
    number when bit 5 of the instruction is set, register SR2 otherwise. *)
Definition second_operand (instr : Z) (rs : gmap Z Z) : Z :=
  if Z.testbit instr 5 then signed_field 5 (Z.land instr 0x1F)
  else cell rs (Z.land instr 0x7).

(** Whether a BR instruction with the n, z, p bits of [instr] (bits 11,
    10, 9) branches when the flag register holds [cond]. *)
Definition branch_taken (instr cond : Z) : bool :=
  (Z.testbit instr 11 && (cond =? FL_NEG))
  || (Z.testbit instr 10 && (cond =? FL_ZRO))
  || (Z.testbit instr 9 && (cond =? FL_POS)).

(** A byte string packed for PUTSP: two characters per word, the first in
    the low byte. *)
Fixpoint pack_string (bs : list byte) : list Z :=
  match bs with
  | [] => []
  | [b] => [Z.of_N (Byte.to_N b)]
  | b0 :: b1 :: rest =>
      (Z.of_N (Byte.to_N b0) + 0x100 * Z.of_N (Byte.to_N b1)) :: pack_string rest
  end.

(** The state of the general-purpose registers other than [r]. *)
Definition same_registers_but (r : Z) (s s' : machine) : Prop :=
  forall r', 0 <= r' <= 7 -> r' <> r -> cell (reg s') r' = cell (reg s) r'.

(** The address a PC-relative instruction refers to: the address after
    the instruction plus the signed 9-bit offset, modulo 2^16. *)
Definition pc_relative (instr : Z) (s : machine) : Z :=
  (cell (reg s) R_PC + 1 + signed_field 9 (Z.land instr 0x1FF)) mod 0x10000.

(** The address LDR and STR refer to: the base register plus the signed
    6-bit offset, modulo 2^16. *)
Definition base_offset (instr : Z) (s : machine) : Z :=
  (cell (reg s) (SR1 instr) + signed_field 6 (Z.land instr 0x3F)) mod 0x10000.

(** The address a load or store instruction accesses (for LDI and STI,
    the address the pointer is read from). *)
Definition effective_address (instr : Z) (s : machine) : Z :=
  if (opcode instr =? OP_LDR) || (opcode instr =? OP_STR)
  then base_offset instr s else pc_relative instr s.

(** An address of an ordinary memory cell: inside the array and not the
    keyboard status register. *)
Definition plain_cell (a : Z) : Prop := 0 <= a < MEMORY_SIZE /\ a <> MR_KBSR.

(** ADD R1, R1, #-1 ; AND R1, R1, #0 ; NOT R1, R1 ; LEA R0, #-1 ;
    ST R0, #1 ; LD R2, #0 ; (data) *)
Definition alu_program : gmap Z Z :=
  mem_of_list 0x3000 [0x127F; 0x5260; 0x927F; 0xE1FF; 0x3001; 0x2400; 0x0000].

(** The state [n] iterations of the loop after [s]. *)
Definition after (n : nat) (s : machine) : machine :=
  match run n s with
  | Ok _ s' => s'
  | _ => s
  end.

(** BRnzp #1 (always taken) ; HALT ; BRn #-3 (never taken while the flag
    is ZERO) ; HALT *)
Definition branch_program : gmap Z Z :=
  mem_of_list 0x3000 [0x0E01; 0xF025; 0x09FD; 0xF025].

(** JSR #1 ; HALT ; RET *)
Definition call_program : gmap Z Z :=
  mem_of_list 0x3000 [0x4801; 0xF025; 0xC1C0].

(** The flag register holds [c]. *)
Definition cond_is (c : Z) (s : machine) : Prop := cell (reg s) R_COND = c.

(** A computation that, when it completes, leaves [running] set. *)
Definition ends_running (m : M bool) : Prop :=
  forall s, wp m (fun running _ => running = true) (fun _ => True) s.

(** The notice TRAP HALT prints. *)
Definition halt_notice : list byte := list_byte_of_string ("HALT" ++ newline).

(** TRAP GETC ; TRAP IN ; HALT *)
Definition input_program : gmap Z Z :=
  mem_of_list 0x3000 [0xF020; 0xF023; 0xF025].

(** LEA R0, #2 ; TRAP PUTSP ; HALT ; "Hi!" packed, and the terminator. *)
Definition packed_program : gmap Z Z :=
  mem_of_list 0x3000 [0xE002; 0xF024; 0xF025; 0x6948; 0x0021; 0x0000].

(** The value of [reg[R_R0]] after [reg[R_R0] = (uint16_t)getchar()]. *)
Definition getc_value (keys : list byte) : Z :=
  match keys with
  | [] => 0xFFFF
  | c :: _ => Z.of_N (Byte.to_N c)
  end.

(** The file at [path] can be opened. *)
Definition opens (fs : string -> option (list byte)) (path : string) : Prop :=
  fs path <> None.

(** A file system with the image [lea_halt_image] under the name
    "hello.obj" and nothing else. *)
Definition hello_fs (path : string) : option (list byte) :=
  if String.eqb path "hello.obj" then Some lea_halt_image else None.

(** A file system with two images that overlap in one cell. *)
Definition two_images (path : string) : option (list byte) :=
  if String.eqb path "first.obj" then Some (encode_image 0x3000 [1; 2; 3])
  else if String.eqb path "second.obj" then Some (encode_image 0x3002 [7; 8])
  else None.

(** TRAP GETC ; TRAP OUT ; TRAP HALT *)
Definition echo_program : gmap Z Z :=
  mem_of_list 0x3000 [0xF020; 0xF021; 0xF025].

(** * Properties *)

(** ** Words *)

Lemma wrap16_range v : 0 <= wrap16 v < 0x10000.
Proof. unfold wrap16. apply Z.mod_pos_bound. lia. Qed.

Lemma wrap16_small v : 0 <= v < 0x10000 -> wrap16 v = v.
Proof. unfold wrap16. apply Z.mod_small. Qed.

Lemma wrap16_testbit v i :
  0 <= i < 16 -> Z.testbit (wrap16 v) i = Z.testbit v i.
Proof.
  intros Hi. unfold wrap16. change 0x10000 with (2 ^ 16).
  apply Z.mod_pow2_bits_low. lia.
Qed.

Lemma land_shiftr_1 x n :
  0 <= n -> (Z.land (Z.shiftr x n) 1 =? 0) = negb (Z.testbit x n).
Proof.
  intros Hn.
  change 1 with (Z.ones 1). rewrite Z.land_ones by lia.
  rewrite <- Z.bit0_mod, Z.shiftr_spec, Z.add_0_l by lia.
  destruct (Z.testbit x n); reflexivity.
Qed.

(** ** Array cells *)

Lemma cell_insert_eq m i v : cell (<[i := v]> m) i = v.
Proof. unfold cell. rewrite lookup_insert_eq. reflexivity. Qed.

Lemma cell_insert_ne m i j v : i <> j -> cell (<[i := v]> m) j = cell m j.
Proof. intros H. unfold cell. rewrite lookup_insert_ne by done. reflexivity. Qed.


(** ** Sign extension *)

Lemma sign_extend_clear x n :
  0 < n -> Z.testbit x (n - 1) = false -> sign_extend x n = x.
Proof.
  intros Hn Hb. unfold sign_extend.
  rewrite land_shiftr_1, Hb by lia. reflexivity.
Qed.

Lemma sign_extend_set x n :
  0 < n -> Z.testbit x (n - 1) = true ->
  sign_extend x n = wrap16 (Z.lor x (Z.shiftl 0xFFFF n)).
Proof.
  intros Hn Hb. unfold sign_extend.
  rewrite land_shiftr_1, Hb by lia. reflexivity.
Qed.

Lemma fill_testbit x n i :
  0 <= n -> 0 <= i < 16 ->
  Z.testbit (wrap16 (Z.lor x (Z.shiftl 0xFFFF n))) i =
  Z.testbit x i || (n <=? i).
Proof.
  intros Hn Hi. rewrite wrap16_testbit, Z.lor_spec by lia.
  f_equal. destruct (Z.leb_spec n i).
  - rewrite Z.shiftl_spec by lia. change 0xFFFF with (Z.ones 16).
    apply Z.ones_spec_low. lia.
  - apply Z.shiftl_spec_low. lia.
Qed.

Lemma fill_value x n :
  0 <= n <= 16 -> 0 <= x < 2 ^ n ->
  wrap16 (Z.lor x (Z.shiftl 0xFFFF n)) = x + 0x10000 - 2 ^ n.
Proof.
  intros Hn Hx.
  assert (Hdisj : Z.land x (Z.shiftl 0xFFFF n) = 0).
  { destruct (Z.eq_dec x 0) as [-> | Hx0]; [apply Z.land_0_l |].
    apply Z.bits_inj'. intros i Hi. rewrite Z.land_spec, Z.bits_0.
    destruct (Z.ltb_spec i n).
    - rewrite Z.shiftl_spec_low by lia. apply andb_false_r.
    - rewrite (Z.bits_above_log2 x i); [reflexivity | lia |].
      apply Z.log2_lt_pow2; [lia |].
      apply Z.lt_le_trans with (2 ^ n); [lia |].
      apply Z.pow_le_mono_r; lia. }
  rewrite <- Z.lxor_lor, <- Z.add_nocarry_lxor by assumption.
  rewrite Z.shiftl_mul_pow2 by lia. unfold wrap16.
  assert (H16 : 2 ^ 16 = 2 ^ n * 2 ^ (16 - n)).
  { rewrite <- Z.pow_add_r by lia. f_equal. lia. }
  assert (0 < 2 ^ n) by (apply Z.pow_pos_nonneg; lia).
  assert (0 < 2 ^ (16 - n)) by (apply Z.pow_pos_nonneg; lia).
  change 0x10000 with (2 ^ 16). change 0xFFFF with (2 ^ 16 - 1).
  symmetry. apply Z.mod_unique with (q := 2 ^ n - 1); [left; nia | nia].
Qed.

(** C5.  For each field width n in {5, 6, 9, 11} and each n-bit value x:
    when bit n-1 of x is set, [sign_extend x n] keeps the low n bits of x
    and has bits n..15 all set, which is the 16-bit two's-complement
    encoding of the negative number x - 2^n; when bit n-1 is clear,
    [sign_extend x n] is x itself, all higher bits zero. *)
Theorem sign_extend_field (n x : Z) :
  field_width n -> 0 <= x < 2 ^ n ->
  (Z.testbit x (n - 1) = true ->
     (forall i, 0 <= i < n ->
        Z.testbit (sign_extend x n) i = Z.testbit x i) /\
     (forall i, n <= i < 16 -> Z.testbit (sign_extend x n) i = true) /\
     0 <= sign_extend x n < 0x10000 /\
     signed16 (sign_extend x n) = x - 2 ^ n) /\
  (Z.testbit x (n - 1) = false ->
     sign_extend x n = x /\
     (forall i, n <= i -> Z.testbit (sign_extend x n) i = false)).
Proof.
  intros Hw Hx.
  assert (Hn : 0 < n <= 11) by (unfold field_width in Hw; lia).
  split; intros Hb.
  - rewrite sign_extend_set by (lia || assumption).
    repeat split.
    + intros i Hi. rewrite fill_testbit by lia.
      destruct (Z.leb_spec n i); [lia | apply orb_false_r].
    + intros i Hi. rewrite fill_testbit by lia.
      destruct (Z.leb_spec n i); [apply orb_true_r | lia].
    + apply wrap16_range.
    + apply wrap16_range.
    + rewrite fill_value by lia. unfold signed16.
      assert (2 ^ n <= 2 ^ 11) by (apply Z.pow_le_mono_r; lia).
      assert (0 < 2 ^ n) by (apply Z.pow_pos_nonneg; lia).
      change (2 ^ 11) with 2048 in *.
      destruct (Z.ltb_spec (x + 65536 - 2 ^ n) 32768); lia.
  - rewrite sign_extend_clear by (lia || assumption). split; [reflexivity |].
    intros i Hi. destruct (Z.eq_dec x 0) as [-> | Hx0]; [apply Z.bits_0 |].
    apply Z.bits_above_log2; [lia |].
    apply Z.lt_le_trans with n; [apply Z.log2_lt_pow2; lia | lia].
Qed.

(** The 5-bit immediate -1 (0x1F) extends to 0xFFFF. *)
Lemma sign_extend_field_witness :
  field_width 5 /\ 0 <= 0x1F < 2 ^ 5 /\
  sign_extend 0x1F 5 = 0xFFFF /\ signed16 (sign_extend 0x1F 5) = 0x1F - 2 ^ 5.
Proof.
  split; [left; reflexivity |]. split; [lia |].
  split; [reflexivity |].
  apply (sign_extend_field 5 0x1F); [left; reflexivity | lia | reflexivity].
Defined.

(** ** Reasoning about computations *)

Lemma bind_Ok_inv {A B} (m : M A) (k : A -> M B) s b s' :
  bind m k s = Ok b s' -> exists a s0, m s = Ok a s0 /\ k a s0 = Ok b s'.
Proof. unfold bind. destruct (m s); [eauto | discriminate..]. Qed.

Lemma bind_Ok {A B} (m : M A) (k : A -> M B) s a s0 :
  m s = Ok a s0 -> bind m k s = k a s0.
Proof. unfold bind. intros ->. reflexivity. Qed.

Lemma wp_bind {A B} (m : M A) (k : A -> M B) Q E s :
  wp m (fun a s' => wp (k a) Q E s') E s -> wp (bind m k) Q E s.
Proof. unfold wp, bind. destruct (m s); auto. Qed.

Lemma wp_conseq {A} (m : M A) (Q Q' : A -> machine -> Prop) (E E' : machine -> Prop) s :
  wp m Q E s ->
  (forall a s', Q a s' -> Q' a s') -> (forall s', E s' -> E' s') ->
  wp m Q' E' s.
Proof. unfold wp. destruct (m s); auto. Qed.

Lemma wp_Ok {A} (m : M A) Q E s a s' : wp m Q E s -> m s = Ok a s' -> Q a s'.
Proof. unfold wp. intros H Hm. rewrite Hm in H. exact H. Qed.

Lemma wp_Aborted {A} (m : M A) Q E s s' : wp m Q E s -> m s = Aborted s' -> E s'.
Proof. unfold wp. intros H Hm. rewrite Hm in H. exact H. Qed.

(** Fields of an instruction name one of the registers R0..R7. *)
Lemma land7_range x : 0 <= Z.land x 0x7 <= 7.
Proof.
  change (Z.land x 0x7) with (Z.land x (Z.ones 3)).
  rewrite Z.land_ones by lia.
  pose proof (Z.mod_pos_bound x (2 ^ 3)). lia.
Qed.

Lemma DR_range instr : 0 <= DR instr <= 7.
Proof. apply land7_range. Qed.

Lemma SR1_range instr : 0 <= SR1 instr <= 7.
Proof. apply land7_range. Qed.

(** ** The flag register stays one-hot *)

Create HintDb lc3_keeps.

Lemma keeps_ret {A} P (a : A) : keeps P (ret a).
Proof. intros s H. exact H. Qed.

Lemma keeps_bind {A B} P (m : M A) (k : A -> M B) :
  keeps P m -> (forall a, keeps P (k a)) -> keeps P (bind m k).
Proof.
  intros Hm Hk s H. apply wp_bind.
  eapply wp_conseq; [apply Hm, H | | auto].
  intros a s' H'. apply Hk, H'.
Qed.

Lemma keeps_if {A} P (b : bool) (m1 m2 : M A) :
  keeps P m1 -> keeps P m2 -> keeps P (if b then m1 else m2).
Proof. destruct b; auto. Qed.

Lemma keeps_abort {A} P : keeps P (@abort A).
Proof. intros s H. exact H. Qed.

Lemma keeps_undefined {A} P : keeps P (@undefined A).
Proof. intros s H. exact I. Qed.

(** Symbolic execution of a computation built from the primitives. *)
Ltac keeps_step :=
  lazymatch goal with
  | |- keeps _ (bind _ _) => apply keeps_bind; [| intros ?]
  | |- keeps _ (if _ then _ else _) => apply keeps_if
  | |- keeps _ (match ?n with O => _ | S _ => _ end) => destruct n
  | |- keeps _ _ => solve [eauto with lc3_keeps]
  end.

Section RegisterProperty.
(** Properties that only look at the register file survive everything
    that leaves the registers alone. *)
Variable P : machine -> Prop.
Hypothesis P_reg : forall s s', reg s' = reg s -> P s -> P s'.

Lemma keeps_reg_get r : keeps P (reg_get r).
Proof. intros s H. exact H. Qed.

Lemma keeps_memory_get a : keeps P (memory_get a).
Proof.
  intros s H. unfold wp, memory_get.
  destruct ((0 <=? a) && (a <? MEMORY_SIZE)); [exact H | exact I].
Qed.

Lemma keeps_memory_set a v : keeps P (memory_set a v).
Proof.
  intros s H. unfold wp, memory_set.
  destruct ((0 <=? a) && (a <? MEMORY_SIZE)); [| exact I].
  revert H. apply P_reg. reflexivity.
Qed.

Lemma keeps_getchar : keeps P getchar.
Proof.
  intros s H. unfold wp, getchar.
  destruct (stdin s); [exact H |]. revert H. apply P_reg. reflexivity.
Qed.

Lemma keeps_check_key : keeps P check_key.
Proof. intros s H. unfold wp, check_key. destruct (stdin s); exact H. Qed.

Lemma keeps_putc c : keeps P (putc c).
Proof. intros s H. revert H. apply P_reg. reflexivity. Qed.

Lemma keeps_put_string str : keeps P (put_string str).
Proof. intros s H. revert H. apply P_reg. reflexivity. Qed.

Hint Resolve keeps_ret keeps_abort keeps_undefined keeps_reg_get
  keeps_memory_get keeps_memory_set keeps_getchar keeps_check_key
  keeps_putc keeps_put_string : lc3_keeps.

Lemma keeps_mem_read a : keeps P (mem_read a).
Proof. unfold mem_read. repeat keeps_step. Qed.

Lemma keeps_mem_write a v : keeps P (mem_write a v).
Proof. apply keeps_memory_set. Qed.

Lemma keeps_puts_loop n : forall c, keeps P (puts_loop n c).
Proof.
  induction n as [| n IH]; intros c; simpl; repeat keeps_step.
Qed.

Lemma keeps_putsp_loop n : forall c, keeps P (putsp_loop n c).
Proof.
  induction n as [| n IH]; intros c; simpl; repeat keeps_step.
Qed.
End RegisterProperty.

Lemma flags_ok_reg s s' : reg s' = reg s -> flags_ok s -> flags_ok s'.
Proof. unfold flags_ok. intros ->. auto. Qed.

#[local] Hint Resolve keeps_ret keeps_abort keeps_undefined keeps_reg_get
  keeps_memory_get keeps_memory_set keeps_getchar keeps_check_key keeps_putc
  keeps_put_string keeps_mem_read keeps_mem_write keeps_puts_loop
  keeps_putsp_loop flags_ok_reg : lc3_keeps.
#[local] Hint Extern 3 => (cbv beta in *; congruence) : lc3_keeps.

Lemma keeps_reg_set r v : r <> R_COND -> keeps flags_ok (reg_set r v).
Proof.
  intros Hr s H. unfold wp, reg_set, flags_ok; simpl.
  rewrite cell_insert_ne by done. exact H.
Qed.

Lemma keeps_update_flags r : keeps flags_ok (update_flags r).
Proof.
  intros s _. unfold update_flags. apply wp_bind. unfold wp at 1, reg_get.
  destruct (cell (reg s) r =? 0); [| destruct (negb _)];
    unfold wp, reg_set, flags_ok, one_hot; simpl;
    rewrite cell_insert_eq; auto.
Qed.

#[local] Hint Resolve keeps_update_flags : lc3_keeps.
#[local] Hint Extern 1 (keeps flags_ok (reg_set (DR ?i) _)) =>
  (apply keeps_reg_set; pose proof (DR_range i); unfold R_COND; lia)
  : lc3_keeps.
#[local] Hint Extern 2 (keeps flags_ok (reg_set _ _)) =>
  (apply keeps_reg_set; discriminate) : lc3_keeps.

Lemma keeps_trap_switch instr : keeps flags_ok (trap_switch instr).
Proof. unfold trap_switch. repeat keeps_step. Qed.

Lemma keeps_execute instr : keeps flags_ok (execute instr).
Proof.
  pose proof (keeps_trap_switch instr).
  unfold execute, case_OP_ADD, case_OP_AND, case_OP_NOT, case_OP_BR,
    case_OP_JMP, case_OP_JSR, case_OP_LD, case_OP_LDI, case_OP_LDR,
    case_OP_LEA, case_OP_ST, case_OP_STI, case_OP_STR, case_OP_TRAP,
    restore_input_buffering.
  cbv zeta. repeat keeps_step.
Qed.

Lemma keeps_step_flags : keeps flags_ok step.
Proof.
  unfold step, fetch. pose proof keeps_execute. repeat keeps_step.
Qed.

Lemma entry_flags_ok mem keys : flags_ok (entry_state mem keys).
Proof. right; left. reflexivity. Qed.

Lemma reachable_flags_ok s : reachable s -> flags_ok s.
Proof.
  induction 1 as [mem keys | s running s' _ IH Hstep | s s' _ IH Hstep].
  - apply entry_flags_ok.
  - exact (wp_Ok _ _ _ _ _ _ (keeps_step_flags s IH) Hstep).
  - exact (wp_Aborted _ _ _ _ _ (keeps_step_flags s IH) Hstep).
Qed.

(** ** Fetch *)

Lemma step_fetched s instr s1 :
  fetch s = Ok instr s1 -> step s = execute instr s1.
Proof. intros H. unfold step. apply bind_Ok, H. Qed.

Lemma fetch_reg s instr s1 :
  fetch s = Ok instr s1 ->
  reg s1 = <[R_PC := wrap16 (cell (reg s) R_PC + 1)]> (reg s).
Proof.
  unfold fetch. intros H.
  apply bind_Ok_inv in H as (pc & s0 & [= <- <-] & H).
  apply bind_Ok_inv in H as ([] & s0 & [= <-] & H).
  assert (K : keeps (fun s' => reg s' = <[R_PC := wrap16 (cell (reg s) R_PC + 1)]> (reg s))
                (mem_read (cell (reg s) R_PC))) by eauto with lc3_keeps.
  exact (wp_Ok _ _ _ _ _ _
           (K (with_reg <[R_PC := wrap16 (cell (reg s) R_PC + 1)]> s) eq_refl) H).
Qed.

Lemma fetch_pc s instr s1 :
  fetch s = Ok instr s1 -> cell (reg s1) R_PC = wrap16 (cell (reg s) R_PC + 1).
Proof.
  intros H. rewrite (fetch_reg _ _ _ H). apply cell_insert_eq.
Qed.

Lemma fetch_other s instr s1 r :
  fetch s = Ok instr s1 -> r <> R_PC -> cell (reg s1) r = cell (reg s) r.
Proof.
  intros H Hr. rewrite (fetch_reg _ _ _ H). apply cell_insert_ne. done.
Qed.

Lemma wrap16_idem v : wrap16 (wrap16 v) = wrap16 v.
Proof. apply wrap16_small, wrap16_range. Qed.

(** ** Reserved opcodes *)

Lemma execute_no_case instr s :
  opcode instr = OP_RES \/ opcode instr = OP_RTI ->
  execute instr s = Ok true s.
Proof.
  unfold opcode, execute. cbv zeta. intros [-> | ->]; reflexivity.
Qed.

(** C1 (what the code does).  An instruction word whose opcode field is
    RES or RTI matches no case of the opcode switch: the iteration ends
    with the machine as the fetch left it and [running] still set, and
    the loop goes on with the next instruction. *)
Theorem reserved_opcode_continues s instr s1 :
  fetch s = Ok instr s1 ->
  opcode instr = OP_RES \/ opcode instr = OP_RTI ->
  step s = Ok true s1 /\
  forall fuel, run (S fuel) s = run fuel s1.
Proof.
  intros Hf Hop.
  assert (Hs : step s = Ok true s1).
  { rewrite (step_fetched _ _ _ Hf). apply execute_no_case, Hop. }
  split; [exact Hs |].
  intros fuel. simpl. unfold bind at 1. rewrite Hs. reflexivity.
Qed.

(** The word 0xD000 at the entry address is skipped, and the HALT behind
    it is executed. *)
Lemma reserved_opcode_continues_witness :
  exists s1,
    fetch (entry_state reserved_then_halt []) = Ok 0xD000 s1 /\
    opcode 0xD000 = OP_RES /\
    step (entry_state reserved_then_halt []) = Ok true s1 /\
    cell (reg s1) R_PC = 0x3001 /\
    exists s2, run 2 (entry_state reserved_then_halt []) = Ok false s2.
Proof.
  eexists. split; [vm_compute; reflexivity |].
  split; [reflexivity |].
  split; [| split; [reflexivity | eexists; vm_compute; reflexivity]].
  eapply (reserved_opcode_continues (entry_state reserved_then_halt []) 0xD000).
  - vm_compute. reflexivity.
  - left. reflexivity.
Defined.

(** ** The last address *)

Lemma memory_get_in_bounds a s :
  0 <= a < MEMORY_SIZE -> memory_get a s = Ok (cell (memory s) a) s.
Proof.
  intros Ha. unfold memory_get.
  destruct (Z.leb_spec 0 a); [| lia]. destruct (Z.ltb_spec a MEMORY_SIZE); [| lia].
  reflexivity.
Qed.

Lemma memory_set_in_bounds a v s :
  0 <= a < MEMORY_SIZE ->
  memory_set a v s = Ok tt (with_memory <[a := wrap16 v]> s).
Proof.
  intros Ha. unfold memory_set.
  destruct (Z.leb_spec 0 a); [| lia]. destruct (Z.ltb_spec a MEMORY_SIZE); [| lia].
  reflexivity.
Qed.

(** C2 (what the code does).  The array has [UINT16_MAX] = 65535 cells,
    so the address 0xFFFF is not the index of a cell: a read or a write
    there is an access outside the array. *)
Theorem last_address_out_of_bounds s v :
  MEMORY_SIZE = 0xFFFF /\
  mem_read 0xFFFF s = Undefined /\ mem_write 0xFFFF v s = Undefined.
Proof. repeat split. Qed.

(** An instruction cannot be fetched from the last address. *)
Lemma step_at_last_address s :
  cell (reg s) R_PC = 0xFFFF -> step s = Undefined.
Proof.
  intros Hpc. unfold step, fetch, bind, reg_get, reg_set. rewrite Hpc.
  reflexivity.
Qed.

(** ** JSR and JSRR *)

(** C6.  When the instruction fetched at address A is JSR or JSRR, the
    step completes and leaves (A + 1) mod 2^16 in R7, in the long form
    and in the register form alike. *)
Theorem jsr_links_next_address s instr s1 :
  fetch s = Ok instr s1 -> opcode instr = OP_JSR ->
  exists s', step s = Ok true s' /\
             cell (reg s') R_R7 = (cell (reg s) R_PC + 1) mod 0x10000.
Proof.
  intros Hf Hop. rewrite (step_fetched _ _ _ Hf).
  pose proof (fetch_pc _ _ _ Hf) as Hpc.
  unfold opcode in Hop. unfold execute. cbv zeta. rewrite Hop.
  cbn [Z.eqb OP_ADD OP_AND OP_NOT OP_BR OP_JMP OP_JSR Pos.eqb].
  unfold case_OP_JSR, bind, reg_get, reg_set, ret. cbv zeta.
  destruct (negb _); eexists; (split; [reflexivity |]); simpl;
    rewrite cell_insert_ne, cell_insert_eq by done;
    rewrite Hpc; apply wrap16_idem.
Qed.

Lemma jsr_links_next_address_witness :
  exists s1 s',
    fetch (entry_state jsr_program []) = Ok 0x4802 s1 /\
    opcode 0x4802 = OP_JSR /\
    step (entry_state jsr_program []) = Ok true s' /\
    cell (reg s') R_R7 = 0x3001 /\ cell (reg s') R_PC = 0x3003.
Proof.
  assert (Hf : exists s1, fetch (entry_state jsr_program []) = Ok 0x4802 s1)
    by (eexists; vm_compute; reflexivity).
  destruct Hf as [s1 Hf]. exists s1.
  destruct (jsr_links_next_address _ _ _ Hf eq_refl) as (s' & Hs & H7).
  exists s'. split; [exact Hf |]. split; [reflexivity |].
  split; [exact Hs |]. split; [rewrite H7; reflexivity |].
  revert Hs. vm_compute. intros [= <-]. reflexivity.
Defined.

(** ** Undefined trap vectors *)

(** C9.  A TRAP instruction whose vector has no routine ends in the
    fault, and the state at the fault is the state the fetch left with R7
    overwritten by the incremented program counter: whenever R7 did not
    hold that value before, the state at the fault differs from the state
    before the instruction. *)
Theorem undefined_trap_faults_after_link s instr s1 :
  fetch s = Ok instr s1 -> opcode instr = OP_TRAP ->
  defined_trap (trap_vector instr) = false ->
  let link := (cell (reg s) R_PC + 1) mod 0x10000 in
  let s' := with_reg <[R_R7 := link]> s1 in
  step s = Aborted s' /\
  cell (reg s') R_R7 = link /\
  (cell (reg s) R_R7 <> link -> cell (reg s') R_R7 <> cell (reg s) R_R7 /\ s' <> s).
Proof.
  intros Hf Hop Hv link s'. pose proof (fetch_pc _ _ _ Hf) as Hpc.
  assert (H7 : cell (reg s') R_R7 = link) by apply cell_insert_eq.
  split; [| split; [exact H7 |]].
  - rewrite (step_fetched _ _ _ Hf).
    unfold opcode in Hop. unfold execute. cbv zeta. rewrite Hop.
    cbn [Z.eqb OP_ADD OP_AND OP_NOT OP_BR OP_JMP OP_JSR OP_LD OP_LDI OP_LDR
         OP_LEA OP_ST OP_STI OP_STR OP_TRAP Pos.eqb].
    unfold defined_trap, trap_vector in Hv. simpl in Hv.
    repeat (apply orb_false_elim in Hv as [? Hv]).
    unfold case_OP_TRAP, trap_switch. cbv zeta.
    unfold bind at 1, reg_get. unfold bind at 1, reg_set.
    repeat match goal with H : (_ =? _) = false |- _ => rewrite H; clear H end.
    unfold bind, abort. rewrite Hpc. unfold s', link, wrap16.
    rewrite Z.mod_mod by lia. reflexivity.
  - intros Hne. rewrite H7. split; [congruence |].
    intros Heq. rewrite Heq in H7. contradiction.
Qed.

Lemma undefined_trap_faults_after_link_witness :
  exists s1 s',
    fetch (entry_state bad_trap []) = Ok 0xF026 s1 /\
    step (entry_state bad_trap []) = Aborted s' /\
    cell (reg (entry_state bad_trap [])) R_R7 = 0 /\
    cell (reg s') R_R7 = 0x3001 /\
    s' <> entry_state bad_trap [].
Proof.
  assert (Hf : exists s1, fetch (entry_state bad_trap []) = Ok 0xF026 s1)
    by (eexists; vm_compute; reflexivity).
  destruct Hf as [s1 Hf]. exists s1.
  destruct (undefined_trap_faults_after_link _ _ _ Hf eq_refl eq_refl)
    as (Hs & H7 & Hne).
  eexists. split; [exact Hf |]. split; [exact Hs |].
  split; [vm_compute; reflexivity |]. split; [exact H7 |].
  apply Hne. vm_compute. discriminate.
Defined.

(** ** The flags follow the sign of the register just written *)

Lemma testbit15_ge v : 0 <= v < 0x10000 -> Z.testbit v 15 = (0x8000 <=? v).
Proof.
  intros Hv. rewrite <- (Z.add_0_l 15), <- Z.shiftr_spec, Z.bit0_odd by lia.
  rewrite Z.shiftr_div_pow2 by lia. change (2 ^ 15) with 0x8000.
  destruct (Z.leb_spec 0x8000 v).
  - replace (v / 0x8000) with 1; [reflexivity |].
    apply Z.div_unique with (r := v - 0x8000); lia.
  - rewrite Z.div_small by lia. reflexivity.
Qed.

Lemma shiftr15_zero v :
  0 <= v < 0x10000 -> (Z.shiftr v 15 =? 0) = negb (Z.testbit v 15).
Proof.
  intros Hv. rewrite testbit15_ge by assumption.
  rewrite Z.shiftr_div_pow2 by lia. change (2 ^ 15) with 0x8000.
  destruct (Z.leb_spec 0x8000 v).
  - replace (v / 0x8000) with 1; [reflexivity |].
    apply Z.div_unique with (r := v - 0x8000); lia.
  - rewrite Z.div_small by lia. reflexivity.
Qed.

Lemma flags_match_intro r s :
  0 <= cell (reg s) r < 0x10000 ->
  cell (reg s) R_COND = sign_flag (cell (reg s) r) ->
  flags_match r s.
Proof.
  unfold flags_match, sign_flag, one_hot, signed16. cbv zeta.
  intros Hv ->. rewrite testbit15_ge by assumption.
  change FL_POS with 1. change FL_ZRO with 2. change FL_NEG with 4.
  destruct (Z.eqb_spec (cell (reg s) r) 0) as [-> | Hnz]; simpl.
  - intuition (lia || discriminate).
  - destruct (Z.leb_spec 0x8000 (cell (reg s) r));
      destruct (Z.ltb_spec (cell (reg s) r) 0x8000); try lia;
      intuition (lia || discriminate).
Qed.

Lemma wp_update_flags r (Q : unit -> machine -> Prop) E s :
  r <> R_COND -> 0 <= cell (reg s) r < 0x10000 ->
  (forall s', flags_match r s' -> Q tt s') ->
  wp (update_flags r) Q E s.
Proof.
  intros Hr Hv HQ.
  assert (Hset : forall f, f = sign_flag (cell (reg s) r) ->
            wp (reg_set R_COND f) Q E s).
  { intros f Hf. apply HQ. apply flags_match_intro; simpl;
      rewrite ?cell_insert_eq, cell_insert_ne by done;
      [assumption |].
    rewrite Hf. apply wrap16_small. unfold sign_flag.
    destruct (_ =? 0); [| destruct (Z.testbit _ _)]; vm_compute; intuition discriminate. }
  unfold update_flags. apply wp_bind. change (wp (reg_get r)) with
    (fun (Q : Z -> machine -> Prop) (E : machine -> Prop) s => Q (cell (reg s) r) s).
  cbv beta. unfold sign_flag in Hset.
  rewrite shiftr15_zero, negb_involutive by assumption.
  destruct (cell (reg s) r =? 0); [| destruct (Z.testbit _ _)];
    apply Hset; reflexivity.
Qed.

(** A computation that leaves the registers alone can be stepped over. *)
Lemma wp_frame {A} (m : M A) (Q : A -> machine -> Prop) (E : machine -> Prop) s :
  (forall rs, keeps (fun s => reg s = rs) m) ->
  (forall a s', reg s' = reg s -> Q a s') ->
  (forall s', reg s' = reg s -> E s') ->
  wp m Q E s.
Proof.
  intros Hm HQ HE. eapply wp_conseq; [apply (Hm (reg s) s eq_refl) | |];
    cbv beta; auto.
Qed.

Ltac wp_frame_step :=
  apply wp_frame;
  [ intros ?; solve [eauto with lc3_keeps]
  | intros ? ? ?
  | intros ? ? ].

(** Symbolic execution under [wp]. *)
Ltac wp_step :=
  lazymatch goal with
  | |- True => exact I
  | |- wp (bind _ _) _ _ _ => apply wp_bind
  | |- wp (ret ?a) ?Q _ ?s => change (Q a s); cbv beta
  | |- wp (reg_get ?r) ?Q _ ?s => change (Q (cell (reg s) r) s); cbv beta
  | |- wp (reg_set ?r ?v) ?Q _ ?s =>
      change (Q tt (with_reg <[r := wrap16 v]> s)); cbv beta
  | |- wp (if ?b then _ else _) _ _ _ => destruct b
  | |- wp (mem_read _) _ _ _ => wp_frame_step
  | |- wp (mem_write _ _) _ _ _ => wp_frame_step
  | |- wp getchar _ _ _ => wp_frame_step
  | |- wp (putc _) _ _ _ => wp_frame_step
  | |- wp (put_string _) _ _ _ => wp_frame_step
  | |- wp (puts_loop _ _) _ _ _ => wp_frame_step
  | |- wp (putsp_loop _ _) _ _ _ => wp_frame_step
  end.

Ltac wp_flags :=
  lazymatch goal with
  | |- wp (update_flags ?r) _ _ _ =>
      apply wp_update_flags;
      [ first [ discriminate | pose proof (land7_range 0); 
                match r with DR ?i => pose proof (DR_range i) end;
                unfold R_COND; lia ]
      | simpl; rewrite cell_insert_eq; apply wrap16_range
      | intros ? ? ]
  end.

Lemma execute_opcode_cases instr r :
  written_register instr = Some r ->
  (r = DR instr /\
   (opcode instr = OP_ADD \/ opcode instr = OP_AND \/ opcode instr = OP_NOT \/
    opcode instr = OP_LD \/ opcode instr = OP_LDI \/ opcode instr = OP_LDR \/
    opcode instr = OP_LEA)) \/
  (r = R_R0 /\ opcode instr = OP_TRAP /\
   (trap_vector instr = TRAP_GETC \/ trap_vector instr = TRAP_IN)).
Proof.
  unfold written_register.
  destruct (existsb _ _) eqn:Hops.
  - intros [= <-]. left. split; [reflexivity |].
    apply existsb_exists in Hops as (op & Hin & Hop).
    apply Z.eqb_eq in Hop. rewrite Hop. simpl in Hin. intuition auto.
  - destruct (_ && _) eqn:Htrap; intros [= <-]. right.
    apply andb_prop in Htrap as [Hop Hv]. apply Z.eqb_eq in Hop.
    apply existsb_exists in Hv as (v & Hin & Hv).
    apply Z.eqb_eq in Hv. rewrite Hv. simpl in Hin. intuition auto.
Qed.

Lemma flagged_execute instr r s :
  written_register instr = Some r ->
  wp (execute instr) (fun _ s' => flags_match r s') (fun _ => True) s.
Proof.
  intros Hw. apply execute_opcode_cases in Hw.
  unfold opcode, trap_vector in Hw. unfold execute. cbv zeta.
  destruct Hw as [[-> Hop] | (-> & Hop & Hv)].
  - unfold case_OP_ADD, case_OP_AND, case_OP_NOT, case_OP_LD, case_OP_LDI,
      case_OP_LDR, case_OP_LEA. cbv zeta.
    destruct Hop as [H | [H | [H | [H | [H | [H | H]]]]]]; rewrite H;
      cbn [Z.eqb OP_ADD OP_AND OP_NOT OP_BR OP_JMP OP_JSR OP_LD OP_LDI OP_LDR
           OP_LEA OP_ST OP_STI OP_STR OP_TRAP Pos.eqb];
      repeat wp_step; wp_flags; repeat wp_step; assumption.
  - rewrite Hop.
    cbn [Z.eqb OP_ADD OP_AND OP_NOT OP_BR OP_JMP OP_JSR OP_LD OP_LDI OP_LDR
         OP_LEA OP_ST OP_STI OP_STR OP_TRAP Pos.eqb].
    unfold case_OP_TRAP, trap_switch, restore_input_buffering. cbv zeta.
    destruct Hv as [H | H]; rewrite H;
      cbn [Z.eqb TRAP_GETC TRAP_OUT TRAP_PUTS TRAP_IN TRAP_PUTSP TRAP_HALT
           Pos.eqb];
      repeat wp_step; wp_flags; repeat wp_step; assumption.
Qed.

Lemma flagged_step s instr s1 r running s' :
  fetch s = Ok instr s1 -> written_register instr = Some r ->
  step s = Ok running s' -> flags_match r s'.
Proof.
  intros Hf Hw Hs. rewrite (step_fetched _ _ _ Hf) in Hs.
  exact (wp_Ok _ _ _ _ _ _ (flagged_execute instr r s1 Hw) Hs).
Qed.

(** C4.  In every state the machine reaches from its entry state (flag
    register ZERO) the flag register holds exactly one of POSITIVE, ZERO and
    NEGATIVE; and when the instruction executed there is one that writes a
    general-purpose register (ADD, AND, NOT, LD, LDI, LDR, LEA, traps GETC
    and IN), the flag afterwards is the one for the sign of the 16-bit
    word now in that register: ZERO iff it is 0, NEGATIVE iff bit 15 is
    set (the word is negative in two's complement), POSITIVE otherwise. *)
Theorem flags_follow_register_write s :
  reachable s ->
  one_hot (cell (reg s) R_COND) /\
  (forall instr s1 r running s',
     fetch s = Ok instr s1 -> written_register instr = Some r ->
     step s = Ok running s' ->
     one_hot (cell (reg s') R_COND) /\ flags_match r s').
Proof.
  intros Hs. split; [exact (reachable_flags_ok s Hs) |].
  intros instr s1 r running s' Hf Hw Hstep. split.
  - exact (reachable_flags_ok s' (reachable_step s running s' Hs Hstep)).
  - exact (flagged_step s instr s1 r running s' Hf Hw Hstep).
Qed.

(** The first instruction of [hello], LEA R0, #2, leaves 0x3003 in R0 and
    the flag POSITIVE. *)
Lemma flags_follow_register_write_witness :
  reachable (entry_state hello []) /\
  exists s', step (entry_state hello []) = Ok true s' /\
             cell (reg s') R_R0 = 0x3003 /\ cell (reg s') R_COND = FL_POS /\
             flags_match R_R0 s'.
Proof.
  split; [apply reachable_entry |].
  eexists. split; [vm_compute; reflexivity |].
  split; [reflexivity |]. split; [reflexivity |].
  eapply (proj2 (flags_follow_register_write (entry_state hello [])
                   (reachable_entry hello [])) 0xE002).
  - vm_compute. reflexivity.
  - reflexivity.
  - vm_compute. reflexivity.
Defined.

(** ** Memory-mapped keyboard *)

Lemma byte_code_range (b : byte) : 0 <= Z.of_N (Byte.to_N b) < 0x100.
Proof. pose proof (Byte.to_N_bounded b). lia. Qed.

Lemma mem_read_plain a s : a <> MR_KBSR -> mem_read a s = memory_get a s.
Proof.
  intros Ha. unfold mem_read.
  destruct (Z.eqb_spec a MR_KBSR); [contradiction | reflexivity].
Qed.

Lemma mem_read_status_idle s :
  stdin s = [] ->
  mem_read MR_KBSR s = Ok 0 (with_memory <[MR_KBSR := 0]> s).
Proof.
  intros Hin. unfold mem_read, bind, check_key. simpl. rewrite Hin. simpl.
  unfold memory_get. simpl. rewrite cell_insert_eq. reflexivity.
Qed.

Lemma mem_read_status_key s c rest :
  stdin s = c :: rest ->
  mem_read MR_KBSR s =
  Ok 0x8000
     (with_memory <[MR_KBDR := Z.of_N (Byte.to_N c)]>
        (with_stdin rest (with_memory <[MR_KBSR := 0x8000]> s))).
Proof.
  intros Hin. unfold mem_read, bind, check_key. simpl. rewrite Hin. simpl.
  unfold getchar. simpl. rewrite Hin. unfold memory_get. simpl.
  rewrite cell_insert_ne, cell_insert_eq by done.
  rewrite (wrap16_small (Z.of_N (Byte.to_N c)))
    by (pose proof (byte_code_range c); lia).
  reflexivity.
Qed.

(** C7.  A read of the keyboard-status address 0xFE00 with no keystroke
    pending yields 0.  With a keystroke of code c pending it yields a word
    with bit 15 set, takes the keystroke and stores c at the keyboard-data
    address 0xFE02, so that the next read of 0xFE02 yields c.  A read of
    any other address is the plain access [memory[a]], and every write is
    the plain assignment [memory[a] = v]; neither polls the keyboard. *)
Theorem keyboard_polling s :
  (stdin s = [] -> exists s', mem_read MR_KBSR s = Ok 0 s') /\
  (forall c rest, stdin s = c :: rest ->
     exists w s',
       mem_read MR_KBSR s = Ok w s' /\ Z.testbit w 15 = true /\
       stdin s' = rest /\
       cell (memory s') MR_KBDR = Z.of_N (Byte.to_N c) /\
       mem_read MR_KBDR s' = Ok (Z.of_N (Byte.to_N c)) s') /\
  (forall a, a <> MR_KBSR ->
     mem_read a s = memory_get a s /\
     (0 <= a < MEMORY_SIZE -> mem_read a s = Ok (cell (memory s) a) s)) /\
  (forall a v,
     mem_write a v s = memory_set a v s /\
     (0 <= a < MEMORY_SIZE ->
        mem_write a v s = Ok tt (with_memory <[a := wrap16 v]> s))).
Proof.
  split; [| split; [| split]].
  - intros Hin. eexists. apply mem_read_status_idle, Hin.
  - intros c rest Hin. do 2 eexists.
    split; [apply mem_read_status_key, Hin |].
    split; [reflexivity |]. split; [reflexivity |].
    split; [apply cell_insert_eq |].
    rewrite mem_read_plain by discriminate.
    rewrite memory_get_in_bounds by (vm_compute; split; [discriminate | reflexivity]).
    simpl. rewrite cell_insert_eq. reflexivity.
  - intros a Ha. split; [apply mem_read_plain, Ha |].
    intros Hb. rewrite mem_read_plain by assumption.
    apply memory_get_in_bounds, Hb.
  - intros a v. split; [reflexivity |].
    intros Hb. apply memory_set_in_bounds, Hb.
Qed.

(** The keystroke 'A': the status read has bit 15 set and the data read
    yields 0x41. *)
Example keyboard_polling_A mem :
  exists s1 s2,
    mem_read MR_KBSR (entry_state mem [x41]) = Ok 0x8000 s1 /\
    mem_read MR_KBDR s1 = Ok 0x41 s2 /\
    mem_read MR_KBSR s2 = Ok 0 (with_memory <[MR_KBSR := 0]> s2).
Proof.
  do 2 eexists. split; [apply mem_read_status_key; reflexivity |].
  split.
  - rewrite mem_read_plain by discriminate.
    rewrite memory_get_in_bounds by (vm_compute; split; [discriminate | reflexivity]).
    simpl. rewrite cell_insert_eq. reflexivity.
  - apply mem_read_status_idle. reflexivity.
Qed.

(** ** Image loader *)

Section Loader.
Lemma same_outside_memory_refl s : same_outside_memory s s.
Proof. repeat split. Qed.

Lemma same_outside_memory_set f s0 s :
  same_outside_memory s0 s -> same_outside_memory s0 (with_memory f s).
Proof. intros H. exact H. Qed.

Lemma fread_words_ok count :
  forall file p s s0,
    0 <= p -> p + Z.of_nat count <= MEMORY_SIZE ->
    same_outside_memory s0 s ->
    exists n s',
      fread_words count file p s = Ok n s' /\ (n <= count)%nat /\
      same_outside_memory s0 s'.
Proof.
  induction count as [| count IH]; intros file p s s0 Hp Hend Hs; simpl.
  - exists O, s. repeat split; [lia | apply Hs..].
  - destruct file as [| b0 [| b1 rest]].
    + exists O, s. repeat split; [lia | apply Hs..].
    + unfold bind. rewrite memory_get_in_bounds by lia.
      rewrite memory_set_in_bounds by lia.
      eexists O, _. split; [reflexivity |]. split; [lia | exact Hs].
    + unfold bind. rewrite memory_set_in_bounds by lia.
      edestruct (IH rest (p + 1)) as (n & s' & -> & Hn & Hs');
        [| | apply same_outside_memory_set, Hs |]; [lia | lia |].
      exists (S n), s'. split; [reflexivity |]. split; [lia | exact Hs'].
Qed.

Lemma swap_words_ok read :
  forall p s s0,
    0 <= p -> p + Z.of_nat read <= MEMORY_SIZE ->
    same_outside_memory s0 s ->
    exists s', swap_words read p s = Ok tt s' /\ same_outside_memory s0 s'.
Proof.
  induction read as [| read IH]; intros p s s0 Hp Hend Hs; simpl.
  - exists s. split; [reflexivity | exact Hs].
  - unfold bind. rewrite memory_get_in_bounds by lia.
    rewrite memory_set_in_bounds by lia.
    apply IH; [lia | lia | exact Hs].
Qed.

Lemma swap16_range x : 0 <= swap16 x < 0x10000.
Proof. apply wrap16_range. Qed.

Lemma read_image_file_ok file s :
  exists s', read_image_file file s = Ok tt s' /\ same_outside_memory s s'.
Proof.
  unfold read_image_file.
  destruct file as [| b0 [| b1 rest]];
    [exists s; split; [reflexivity | apply same_outside_memory_refl]..|].
  cbv zeta.
  set (origin := swap16 _).
  assert (Ho : 0 <= origin < 0x10000) by apply swap16_range.
  assert (Hmax : wrap16 (UINT16_MAX - origin) = 0xFFFF - origin)
    by (apply wrap16_small; unfold UINT16_MAX; lia).
  rewrite Hmax. unfold bind.
  destruct (fread_words_ok (Z.to_nat (0xFFFF - origin)) rest origin s s)
    as (n & s1 & -> & Hn & Hs1);
    [lia | unfold MEMORY_SIZE, UINT16_MAX; lia
    | apply same_outside_memory_refl |].
  apply swap_words_ok; [lia | unfold MEMORY_SIZE, UINT16_MAX; lia | exact Hs1].
Qed.
End Loader.

(** C3 (as the code has it).  [read_image] reports failure exactly when
    the file cannot be opened, and then leaves the machine untouched; for
    every file that can be opened, whatever its length, it returns 1
    after storing into [memory] only. *)
Theorem read_image_fails_only_unopened fs image_path s :
  match fs image_path with
  | None => read_image fs image_path s = Ok 0 s
  | Some file =>
      exists s', read_image fs image_path s = Ok 1 s' /\
                 reg s' = reg s /\ stdin s' = stdin s /\ stdout s' = stdout s
  end.
Proof.
  unfold read_image. destruct (fs image_path) as [file |]; [| reflexivity].
  destruct (read_image_file_ok file s) as (s' & Hs' & Hsame).
  exists s'. unfold bind. rewrite Hs'. split; [reflexivity | exact Hsame].
Qed.

(** C3 (as stated) fails: a stream of three bytes ends inside a word, a
    stream of one byte ends inside the origin word, and the loader
    reports success for both. *)
Lemma truncated_image_accepted :
  truncated_mid_word truncated_image = true /\
  (exists s', read_image (one_file truncated_image) "truncated.obj" power_on
              = Ok 1 s') /\
  truncated_mid_word [x30] = true /\
  read_image (one_file [x30]) "short.obj" power_on = Ok 1 power_on.
Proof.
  split; [reflexivity |]. split; [eexists; vm_compute; reflexivity |].
  split; reflexivity.
Qed.

(** A complete image is stored word by word from its origin, high byte
    first in the file. *)
Example read_image_lea_halt :
  exists s', read_image (one_file lea_halt_image) "hello.obj" power_on = Ok 1 s' /\
             cell (memory s') 0x3000 = 0xE002 /\
             cell (memory s') 0x3001 = 0xF025.
Proof. eexists. split; [vm_compute; reflexivity |]. split; reflexivity. Qed.

(** ** String output traps *)

Lemma to_char_mod c : to_char c mod 0x100 = c mod 0x100.
Proof.
  unfold to_char. pose proof (Z.mod_pos_bound c 0x100 ltac:(lia)).
  destruct (Z.ltb_spec (c mod 0x100) 0x80).
  - apply Z.mod_mod. lia.
  - symmetry. apply Z.mod_unique with (q := -1); [left |]; lia.
Qed.

Lemma byte_of_Z_to_char c : byte_of_Z (to_char c) = byte_of_Z c.
Proof. unfold byte_of_Z. rewrite to_char_mod. reflexivity. Qed.

Lemma byte_of_Z_low c : byte_of_Z (Z.land c 0xFF) = byte_of_Z c.
Proof.
  unfold byte_of_Z. change 0xFF with (Z.ones 8).
  rewrite Z.land_ones by lia. change (2 ^ 8) with 0x100.
  rewrite Z.mod_mod by lia. reflexivity.
Qed.

Lemma to_char_zero c : (to_char c =? 0) = (Z.land c 0xFF =? 0).
Proof.
  change 0xFF with (Z.ones 8). rewrite Z.land_ones by lia.
  change (2 ^ 8) with 0x100. unfold to_char.
  pose proof (Z.mod_pos_bound c 0x100 ltac:(lia)).
  destruct (Z.ltb_spec (c mod 0x100) 0x80); [reflexivity |].
  destruct (Z.eqb_spec (c mod 0x100 - 0x100) 0);
    destruct (Z.eqb_spec (c mod 0x100) 0); lia || reflexivity.
Qed.

Lemma with_stdout_app l1 l2 s :
  with_stdout (stdout (with_stdout (stdout s ++ l1) s) ++ l2)
    (with_stdout (stdout s ++ l1) s)
  = with_stdout (stdout s ++ l1 ++ l2) s.
Proof. unfold with_stdout. simpl. rewrite <- app_assoc. reflexivity. Qed.

Lemma with_stdout_nil s : s = with_stdout (stdout s ++ []) s.
Proof. destruct s. unfold with_stdout. simpl. rewrite app_nil_r. reflexivity. Qed.

Lemma putc_appended c out s :
  putc c (with_stdout (stdout s ++ out) s) =
  Ok tt (with_stdout (stdout s ++ out ++ [byte_of_Z c]) s).
Proof. unfold putc, with_stdout. simpl. rewrite <- app_assoc. reflexivity. Qed.

(** The first zero word at or after [c], given that there is one. *)
Lemma first_zero mem (n : nat) :
  forall c, cell mem (c + Z.of_nat n) = 0 ->
  exists k, (k <= n)%nat /\ cell mem (c + Z.of_nat k) = 0 /\
            Forall nonzero (cells_at mem c k).
Proof.
  induction n as [| n IH]; intros c Hz.
  - exists O. split; [lia |]. split; [exact Hz | constructor].
  - destruct (Z.eq_dec (cell mem c) 0) as [H0 | Hnz].
    + exists O. split; [lia |]. split; [| constructor].
      rewrite Z.add_0_r. exact H0.
    + destruct (IH (c + 1)) as (k & Hk & Hzk & Hall).
      { rewrite <- Hz. f_equal. lia. }
      exists (S k). split; [lia |]. split.
      * rewrite <- Hzk. f_equal. lia.
      * simpl. constructor; assumption.
Qed.

Section ScanLoops.
Variable s : machine.

(** Both loops walk the words up to the first zero, one word per
    iteration, and only append to the output. *)
Lemma puts_loop_scan (k : nat) :
  forall (n : nat) c out,
    0 <= c -> c + Z.of_nat k < MEMORY_SIZE -> (k <= n)%nat ->
    Forall nonzero (cells_at (memory s) c k) ->
    cell (memory s) (c + Z.of_nat k) = 0 ->
    puts_loop n c (with_stdout (stdout s ++ out) s) =
    Ok tt (with_stdout
             (stdout s ++ out ++ flat_map puts_bytes (cells_at (memory s) c k)) s).
Proof.
  induction k as [| k IH]; intros n c out Hc Hend Hn Hall Hz.
  - rewrite Z.add_0_r in Hz. simpl. rewrite app_nil_r.
    destruct n; simpl; unfold bind;
      rewrite memory_get_in_bounds by lia; simpl; rewrite Hz; reflexivity.
  - destruct n as [| n]; [lia |]. simpl in Hall. inversion_clear Hall as [| ? ? Hw Hrest].
    simpl. unfold bind at 1. rewrite memory_get_in_bounds by lia. simpl.
    destruct (Z.eqb_spec (cell (memory s) c) 0) as [H0 | _]; [contradiction |].
    unfold bind at 1. rewrite putc_appended.
    rewrite (IH n (c + 1)); [| lia | lia | lia | exact Hrest |].
    + rewrite <- app_assoc. simpl.
      rewrite byte_of_Z_to_char. unfold puts_bytes at 2.
      rewrite byte_of_Z_low. reflexivity.
    + rewrite <- Hz. f_equal. lia.
Qed.

Lemma putsp_loop_scan (k : nat) :
  forall (n : nat) c out,
    0 <= c -> c + Z.of_nat k < MEMORY_SIZE -> (k <= n)%nat ->
    Forall nonzero (cells_at (memory s) c k) ->
    cell (memory s) (c + Z.of_nat k) = 0 ->
    putsp_loop n c (with_stdout (stdout s ++ out) s) =
    Ok tt (with_stdout
             (stdout s ++ out ++ flat_map putsp_bytes (cells_at (memory s) c k)) s).
Proof.
  induction k as [| k IH]; intros n c out Hc Hend Hn Hall Hz.
  - rewrite Z.add_0_r in Hz. simpl. rewrite app_nil_r.
    destruct n; simpl; unfold bind;
      rewrite memory_get_in_bounds by lia; simpl; rewrite Hz; reflexivity.
  - destruct n as [| n]; [lia |].
    cbn [cells_at flat_map putsp_loop] in *.
    inversion_clear Hall as [| ? ? Hw Hrest].
    assert (Hz' : cell (memory s) (c + 1 + Z.of_nat k) = 0)
      by (rewrite <- Hz; f_equal; lia).
    unfold bind at 1. rewrite memory_get_in_bounds by lia.
    cbn [memory with_stdout].
    destruct (Z.eqb_spec (cell (memory s) c) 0) as [H0 | _]; [contradiction |].
    cbv zeta. unfold bind at 1. rewrite putc_appended.
    unfold bind at 1. rewrite to_char_zero.
    unfold putsp_bytes at 1. cbv zeta.
    destruct (Z.land (Z.shiftr (cell (memory s) c) 8) 0xFF =? 0);
      cbn [negb].
    + unfold ret at 1.
      rewrite (IH n (c + 1)); [| lia | lia | lia | exact Hrest | exact Hz'].
      rewrite <- app_assoc. cbn [app].
      rewrite byte_of_Z_to_char, !byte_of_Z_low. reflexivity.
    + rewrite putc_appended.
      rewrite (IH n (c + 1)); [| lia | lia | lia | exact Hrest | exact Hz'].
      rewrite <- !app_assoc. cbn [app].
      rewrite !byte_of_Z_to_char, !byte_of_Z_low. reflexivity.
Qed.
End ScanLoops.

Lemma bind_ext {A B} (m : M A) (k1 k2 : A -> M B) s :
  (forall a s', k1 a s' = k2 a s') -> bind m k1 s = bind m k2 s.
Proof. intros H. unfold bind. destruct (m s); auto. Qed.

Lemma memory_get_outside a s :
  ~ 0 <= a < MEMORY_SIZE -> memory_get a s = Undefined.
Proof.
  intros Ha. unfold memory_get.
  destruct (Z.leb_spec 0 a); destruct (Z.ltb_spec a MEMORY_SIZE);
    try reflexivity; lia.
Qed.

Lemma puts_loop_outside n c s :
  ~ 0 <= c < MEMORY_SIZE -> puts_loop n c s = Undefined.
Proof.
  intros Hc. destruct n; simpl; unfold bind;
    rewrite memory_get_outside by assumption; reflexivity.
Qed.

Lemma putsp_loop_outside n c s :
  ~ 0 <= c < MEMORY_SIZE -> putsp_loop n c s = Undefined.
Proof.
  intros Hc. destruct n; simpl; unfold bind;
    rewrite memory_get_outside by assumption; reflexivity.
Qed.

(** The counter of the loops is no limit of its own: once it covers the
    cells left in the array, its value does not matter. *)
Lemma puts_loop_counter (n : nat) :
  forall (m : nat) c s,
    (cells_from c <= n)%nat -> (cells_from c <= m)%nat ->
    puts_loop n c s = puts_loop m c s.
Proof.
  unfold cells_from.
  induction n as [| n IH]; intros m c s Hn Hm.
  - rewrite !puts_loop_outside by lia. reflexivity.
  - destruct (Z_lt_dec c MEMORY_SIZE) as [Hc | Hc];
      [| rewrite !puts_loop_outside by lia; reflexivity].
    destruct m as [| m]; [lia |]. simpl.
    apply bind_ext. intros w s1. destruct (w =? 0); [reflexivity |].
    apply bind_ext. intros _ s2. apply IH; lia.
Qed.

Lemma putsp_loop_counter (n : nat) :
  forall (m : nat) c s,
    (cells_from c <= n)%nat -> (cells_from c <= m)%nat ->
    putsp_loop n c s = putsp_loop m c s.
Proof.
  unfold cells_from.
  induction n as [| n IH]; intros m c s Hn Hm.
  - rewrite !putsp_loop_outside by lia. reflexivity.
  - destruct (Z_lt_dec c MEMORY_SIZE) as [Hc | Hc];
      [| rewrite !putsp_loop_outside by lia; reflexivity].
    destruct m as [| m]; [lia |]. simpl.
    apply bind_ext. intros w s1. destruct (w =? 0); [reflexivity |].
    apply bind_ext. intros _ s2. apply bind_ext. intros _ s3.
    apply IH; lia.
Qed.

(** Without a zero word between [c] and the end of the array the scan of
    PUTS leaves the array. *)
Lemma puts_loop_runs_off (n : nat) :
  forall c s,
    0 <= c -> n = cells_from c ->
    (forall a, c <= a < MEMORY_SIZE -> cell (memory s) a <> 0) ->
    puts_loop n c s = Undefined.
Proof.
  unfold cells_from.
  induction n as [| n IH]; intros c s Hc Hn Hnz; simpl; unfold bind at 1.
  - unfold memory_get. destruct (Z.ltb_spec c MEMORY_SIZE); [lia |].
    rewrite andb_false_r. reflexivity.
  - rewrite memory_get_in_bounds by lia.
    destruct (Z.eqb_spec (cell (memory s) c) 0) as [H0 | _];
      [exfalso; apply (Hnz c); [lia | exact H0] |].
    unfold bind. cbn [putc]. apply IH; [lia | lia |].
    intros a Ha. apply Hnz. lia.
Qed.

Lemma cells_at_length mem k : forall c, length (cells_at mem c k) = k.
Proof. induction k as [| k IH]; intros c; simpl; [| rewrite IH]; reflexivity. Qed.

Lemma cells_at_snoc mem k :
  forall c, cells_at mem c (S k) = cells_at mem c k ++ [cell mem (c + Z.of_nat k)].
Proof.
  induction k as [| k IH]; intros c.
  - simpl. rewrite Z.add_0_r. reflexivity.
  - change (cells_at mem c (S (S k)))
      with (cell mem c :: cells_at mem (c + 1) (S k)).
    rewrite IH. replace (c + Z.of_nat (S k)) with (c + 1 + Z.of_nat k) by lia.
    reflexivity.
Qed.

Lemma flat_map_puts_bytes ws :
  flat_map puts_bytes ws = map (fun w => byte_of_Z (Z.land w 0xFF)) ws.
Proof. induction ws as [| w ws IH]; simpl; [| rewrite IH]; reflexivity. Qed.

Lemma cells_from_bound c (k : nat) :
  c + Z.of_nat k < MEMORY_SIZE -> (k <= cells_from c)%nat.
Proof. unfold cells_from. lia. Qed.

Lemma trap_switch_puts s instr (k : nat) :
  trap_vector instr = TRAP_PUTS ->
  0 <= cell (reg s) R_R0 -> cell (reg s) R_R0 + Z.of_nat k < MEMORY_SIZE ->
  Forall nonzero (cells_at (memory s) (cell (reg s) R_R0) k) ->
  cell (memory s) (cell (reg s) R_R0 + Z.of_nat k) = 0 ->
  trap_switch instr s =
  Ok true (with_stdout
             (stdout s ++
              flat_map puts_bytes (cells_at (memory s) (cell (reg s) R_R0) k)) s).
Proof.
  intros Hv Hc Hend Hall Hz. unfold trap_vector in Hv.
  unfold trap_switch. cbv zeta. rewrite Hv.
  cbn [Z.eqb TRAP_GETC TRAP_OUT TRAP_PUTS Pos.eqb].
  unfold bind at 1, reg_get. unfold bind at 1.
  pose proof (puts_loop_scan s k (cells_from (cell (reg s) R_R0))
                (cell (reg s) R_R0) [] Hc Hend (cells_from_bound _ _ Hend)
                Hall Hz) as Hloop.
  rewrite <- with_stdout_nil in Hloop. cbn [app] in Hloop.
  rewrite Hloop. reflexivity.
Qed.

Lemma trap_switch_putsp s instr (k : nat) :
  trap_vector instr = TRAP_PUTSP ->
  0 <= cell (reg s) R_R0 -> cell (reg s) R_R0 + Z.of_nat k < MEMORY_SIZE ->
  Forall nonzero (cells_at (memory s) (cell (reg s) R_R0) k) ->
  cell (memory s) (cell (reg s) R_R0 + Z.of_nat k) = 0 ->
  trap_switch instr s =
  Ok true (with_stdout
             (stdout s ++
              flat_map putsp_bytes (cells_at (memory s) (cell (reg s) R_R0) k)) s).
Proof.
  intros Hv Hc Hend Hall Hz. unfold trap_vector in Hv.
  unfold trap_switch. cbv zeta. rewrite Hv.
  cbn [Z.eqb TRAP_GETC TRAP_OUT TRAP_PUTS TRAP_IN TRAP_PUTSP Pos.eqb].
  unfold bind at 1, reg_get. unfold bind at 1.
  pose proof (putsp_loop_scan s k (cells_from (cell (reg s) R_R0))
                (cell (reg s) R_R0) [] Hc Hend (cells_from_bound _ _ Hend)
                Hall Hz) as Hloop.
  rewrite <- with_stdout_nil in Hloop. cbn [app] in Hloop.
  rewrite Hloop. reflexivity.
Qed.

(** The fetch of a TRAP instruction did not go through the keyboard
    status register: the word read there has opcode BR or RTI. *)
Lemma fetch_trap_no_poll s instr s1 :
  fetch s = Ok instr s1 -> opcode instr = OP_TRAP ->
  s1 = with_reg <[R_PC := wrap16 (cell (reg s) R_PC + 1)]> s.
Proof.
  unfold fetch, bind at 1, reg_get. unfold bind at 1, reg_set.
  intros Hf Hop.
  destruct (Z.eq_dec (cell (reg s) R_PC) MR_KBSR) as [Hk | Hk].
  - exfalso. rewrite Hk in Hf. revert Hf.
    set (s0 := with_reg _ s).
    destruct (stdin s0) as [| c rest] eqn:Hin.
    + rewrite (mem_read_status_idle s0 Hin). intros [= <- _]. discriminate Hop.
    + rewrite (mem_read_status_key s0 c rest Hin). intros [= <- _].
      discriminate Hop.
  - rewrite mem_read_plain in Hf by assumption. unfold memory_get in Hf.
    destruct (_ && _); [| discriminate]. injection Hf as _ <-. reflexivity.
Qed.

Lemma execute_trap instr s :
  opcode instr = OP_TRAP ->
  execute instr s =
  match trap_switch instr (with_reg <[R_R7 := wrap16 (cell (reg s) R_PC)]> s) with
  | Ok running s' => Ok running s'
  | Aborted s' => Aborted s'
  | Undefined => Undefined
  end.
Proof.
  unfold opcode, execute. cbv zeta. intros ->.
  cbn [Z.eqb OP_ADD OP_AND OP_NOT OP_BR OP_JMP OP_JSR OP_LD OP_LDI OP_LDR
       OP_LEA OP_ST OP_STI OP_STR OP_TRAP Pos.eqb].
  unfold case_OP_TRAP, bind at 1, reg_get. unfold bind at 1, reg_set.
  unfold bind at 1. destruct (trap_switch _ _); reflexivity.
Qed.

(** C8.  When the instruction is TRAP PUTS and the memory from the
    address in R0 holds the non-zero words ws followed by a zero word, the
    step appends to the output exactly the low bytes of ws, in order, and
    nothing for the zero word or for what lies behind it; memory and
    pending input are as before.  For ws = [0x48; 0x49] the output is
    the two characters of "HI". *)
Theorem puts_writes_low_bytes s instr s1 ws :
  fetch s = Ok instr s1 ->
  opcode instr = OP_TRAP -> trap_vector instr = TRAP_PUTS ->
  0 <= cell (reg s) R_R0 ->
  cell (reg s) R_R0 + Z.of_nat (length ws) < MEMORY_SIZE ->
  cells_at (memory s) (cell (reg s) R_R0) (S (length ws)) = ws ++ [0] ->
  Forall nonzero ws ->
  exists s',
    step s = Ok true s' /\
    stdout s' = stdout s ++ map (fun w => byte_of_Z (Z.land w 0xFF)) ws /\
    memory s' = memory s /\ stdin s' = stdin s /\
    (ws = [0x48; 0x49] -> stdout s' = stdout s ++ list_byte_of_string "HI").
Proof.
  intros Hf Hop Hv Hc Hend Hcells Hnz.
  rewrite cells_at_snoc in Hcells.
  apply app_inj_tail in Hcells as [Hws Hz].
  rewrite (step_fetched _ _ _ Hf), (execute_trap _ _ Hop).
  rewrite (fetch_trap_no_poll _ _ _ Hf Hop).
  set (s2 := with_reg _ (with_reg _ s)).
  assert (H0 : cell (reg s2) R_R0 = cell (reg s) R_R0).
  { unfold s2. simpl. rewrite !cell_insert_ne by done. reflexivity. }
  rewrite (trap_switch_puts s2 instr (length ws) Hv);
    rewrite ?H0; try assumption;
    [| change (memory s2) with (memory s); rewrite Hws; exact Hnz].
  eexists. split; [reflexivity |].
  change (memory s2) with (memory s). rewrite Hws, flat_map_puts_bytes.
  split; [reflexivity |]. split; [reflexivity |]. split; [reflexivity |].
  intros ->. reflexivity.
Qed.

Lemma puts_writes_low_bytes_witness :
  exists s1 s',
    fetch hello_at_puts = Ok 0xF022 s1 /\
    cell (reg hello_at_puts) R_R0 = 0x3003 /\
    cells_at (memory hello_at_puts) 0x3003 3 = [0x48; 0x49; 0] /\
    step hello_at_puts = Ok true s' /\
    stdout s' = list_byte_of_string "HI".
Proof.
  assert (Hf : exists s1, fetch hello_at_puts = Ok 0xF022 s1)
    by (eexists; vm_compute; reflexivity).
  destruct Hf as [s1 Hf]. exists s1.
  destruct (puts_writes_low_bytes hello_at_puts 0xF022 s1 [0x48; 0x49] Hf)
    as (s' & Hs & Hout & _ & _ & HHI);
    [ reflexivity | reflexivity | vm_compute; discriminate
    | vm_compute; reflexivity | vm_compute; reflexivity
    | repeat constructor; discriminate | ].
  exists s'. split; [exact Hf |].
  split; [vm_compute; reflexivity |]. split; [vm_compute; reflexivity |].
  split; [exact Hs |]. exact (HHI eq_refl).
Defined.

(** C10.  When some address z at or above the one in R0, inside the
    memory array, holds a zero word, the loop of PUTS and the loop of
    PUTSP both finish: they stop at the first zero word at or after R0,
    having handled the k words before it one per iteration in increasing
    address order, and they leave everything but the output as it was, so
    no cell was read through the keyboard poll. *)
Theorem string_traps_terminate s instr z :
  trap_vector instr = TRAP_PUTS \/ trap_vector instr = TRAP_PUTSP ->
  0 <= cell (reg s) R_R0 <= z -> z < MEMORY_SIZE ->
  cell (memory s) z = 0 ->
  exists k : nat,
    let c := cell (reg s) R_R0 in
    let ws := cells_at (memory s) c k in
    c + Z.of_nat k <= z /\
    Forall nonzero ws /\ cell (memory s) (c + Z.of_nat k) = 0 /\
    trap_switch instr s =
    Ok true
       (with_stdout
          (stdout s ++
           flat_map (if trap_vector instr =? TRAP_PUTS
                     then puts_bytes else putsp_bytes) ws) s).
Proof.
  intros Hv Hc Hz Hzero.
  destruct (first_zero (memory s) (Z.to_nat (z - cell (reg s) R_R0))
              (cell (reg s) R_R0)) as (k & Hk & Hzk & Hall).
  { rewrite <- Hzero. f_equal. lia. }
  exists k. cbv zeta.
  split; [lia |]. split; [exact Hall |]. split; [exact Hzk |].
  destruct Hv as [Hv | Hv]; rewrite Hv; cbn [Z.eqb TRAP_PUTS TRAP_PUTSP Pos.eqb].
  - apply trap_switch_puts; try assumption; lia.
  - apply trap_switch_putsp; try assumption; lia.
Qed.

Lemma string_traps_terminate_witness :
  cell (reg hello_at_puts) R_R0 = 0x3003 /\
  cell (memory hello_at_puts) 0x3005 = 0 /\
  exists out,
    trap_switch 0xF024 hello_at_puts =
    Ok true (with_stdout (stdout hello_at_puts ++ out) hello_at_puts).
Proof.
  split; [vm_compute; reflexivity |]. split; [vm_compute; reflexivity |].
  destruct (string_traps_terminate hello_at_puts 0xF024 0x3005)
    as (k & _ & _ & _ & Hrun);
    [ right; reflexivity | vm_compute; split; discriminate
    | reflexivity | vm_compute; reflexivity | ].
  eexists. exact Hrun.
Defined.

(** * Whole programs *)

Example run_hello :
  exists s, run 10 (entry_state hello []) = Ok false s /\
            stdout s = list_byte_of_string ("HI" ++ "HALT" ++ newline).
Proof. eexists. split; [vm_compute; reflexivity | reflexivity]. Qed.

(** An image holding LEA R0, #2 ; TRAP HALT, loaded and run: the output is
    the halt notice and the loop has ended. *)
Example load_and_run :
  exists s0 s,
    read_image (one_file lea_halt_image) "lea_halt.obj" power_on = Ok 1 s0 /\
    run 10 (entry_state (memory s0) []) = Ok false s /\
    stdout s = list_byte_of_string ("HALT" ++ newline).
Proof.
  do 2 eexists. split; [vm_compute; reflexivity |].
  split; [vm_compute; reflexivity | reflexivity].
Qed.

Example newline_code : list_byte_of_string newline = [x0a].
Proof. reflexivity. Qed.

(** * Further properties *)

(** ** Byte order *)

Lemma testbit_word16_high w i : word16 w -> 16 <= i -> Z.testbit w i = false.
Proof.
  intros Hw Hi. destruct (Z.eq_dec w 0) as [-> | Hnz]; [apply Z.bits_0 |].
  apply Z.bits_above_log2; [unfold word16 in Hw; lia |].
  apply Z.lt_le_trans with 16; [| exact Hi].
  apply Z.log2_lt_pow2; unfold word16 in Hw; lia.
Qed.

Lemma swap16_bytes w :
  word16 w -> swap16 w = 0x100 * (w mod 0x100) + w / 0x100.
Proof.
  intros Hw. unfold swap16.
  assert (Hdisj : Z.land (Z.shiftl w 8) (Z.shiftr w 8) = 0).
  { apply Z.bits_inj'. intros i Hi. rewrite Z.land_spec, Z.bits_0.
    destruct (Z.ltb_spec i 8).
    - rewrite Z.shiftl_spec_low by lia. reflexivity.
    - rewrite Z.shiftr_spec by lia.
      rewrite (testbit_word16_high w (i + 8)) by (assumption || lia).
      apply andb_false_r. }
  rewrite <- Z.lxor_lor, <- Z.add_nocarry_lxor by assumption.
  rewrite Z.shiftl_mul_pow2, Z.shiftr_div_pow2 by lia.
  change (2 ^ 8) with 0x100. unfold wrap16, word16 in *.
  pose proof (Z.div_mod w 0x100 ltac:(lia)).
  pose proof (Z.mod_pos_bound w 0x100 ltac:(lia)).
  symmetry. apply Z.mod_unique with (q := w / 0x100); lia.
Qed.

(** X1.  [swap16] exchanges the two bytes of a 16-bit word, so applying it
    twice gives the word back. *)
Theorem swap16_involutive w :
  word16 w ->
  word16 (swap16 w) /\
  swap16 w mod 0x100 = w / 0x100 /\ swap16 w / 0x100 = w mod 0x100 /\
  swap16 (swap16 w) = w.
Proof.
  intros Hw. assert (Hs : word16 (swap16 w)) by apply wrap16_range.
  pose proof (swap16_bytes w Hw) as E.
  pose proof (Z.div_mod w 0x100 ltac:(lia)).
  pose proof (Z.mod_pos_bound w 0x100 ltac:(lia)).
  assert (Hlo : swap16 w mod 0x100 = w / 0x100).
  { rewrite E. symmetry. apply Z.mod_unique with (q := w mod 0x100);
      unfold word16 in Hw; lia. }
  assert (Hhi : swap16 w / 0x100 = w mod 0x100).
  { rewrite E. symmetry. apply Z.div_unique with (r := w / 0x100);
      unfold word16 in Hw; lia. }
  repeat split; try apply Hs; try assumption.
  rewrite (swap16_bytes _ Hs), Hlo, Hhi. lia.
Qed.

Lemma swap16_involutive_witness :
  word16 0x1234 /\ swap16 0x1234 = 0x3412 /\ swap16 (swap16 0x1234) = 0x1234.
Proof.
  split; [unfold word16; lia |]. split; [reflexivity |].
  apply (swap16_involutive 0x1234). unfold word16. lia.
Defined.

Lemma swap16_swap16 w : word16 w -> swap16 (swap16 w) = w.
Proof. intros Hw. apply (swap16_bytes w) in Hw as E.
  pose proof (wrap16_range (Z.lor (Z.shiftl w 8) (Z.shiftr w 8))) as Hs.
  fold (swap16 w) in Hs. rewrite (swap16_bytes _ Hs).
  pose proof (Z.div_mod w 0x100 ltac:(lia)).
  pose proof (Z.mod_pos_bound w 0x100 ltac:(lia)).
  unfold word16 in *.
  replace (swap16 w mod 0x100) with (w / 0x100)
    by (rewrite E; apply Z.mod_unique with (q := w mod 0x100); lia).
  replace (swap16 w / 0x100) with (w mod 0x100)
    by (rewrite E; apply Z.div_unique with (r := w / 0x100); lia).
  lia.
Qed.

(** ** Loading an image *)

Lemma byte_of_Z_code c : Z.of_N (Byte.to_N (byte_of_Z c)) = c mod 0x100.
Proof.
  unfold byte_of_Z. pose proof (Z.mod_pos_bound c 0x100 ltac:(lia)).
  destruct (Byte.of_N (Z.to_N (c mod 0x100))) as [b |] eqn:E.
  - apply Byte.to_of_N in E. rewrite E. lia.
  - apply Byte.of_N_None_iff in E. lia.
Qed.

(** The item [fread] stores for the two bytes of a file word, before the
    bytes are swapped. *)
Lemma raw_item w :
  word16 w ->
  Z.of_N (Byte.to_N (byte_of_Z (Z.shiftr w 8)))
  + 0x100 * Z.of_N (Byte.to_N (byte_of_Z w)) = swap16 w.
Proof.
  intros Hw. rewrite !byte_of_Z_code, (swap16_bytes w Hw).
  rewrite Z.shiftr_div_pow2 by lia. change (2 ^ 8) with 0x100.
  unfold word16 in Hw.
  rewrite (Z.mod_small (w / 0x100)); [lia |].
  split; [apply Z.div_pos; lia | apply Z.div_lt_upper_bound; lia].
Qed.

Lemma stored_nil m p : stored m m p [].
Proof. split; [intros i v H; discriminate | reflexivity]. Qed.

Lemma stored_cons m m1 m2 p v vs :
  cell m1 p = v -> (forall a, a <> p -> cell m1 a = cell m a) ->
  stored m1 m2 (p + 1) vs ->
  stored m m2 p (v :: vs).
Proof.
  intros Hp Hother [Hvs Hframe]. split.
  - intros [| i] w Hi; simpl in Hi.
    + injection Hi as <-. rewrite Z.add_0_r, Hframe by lia. exact Hp.
    + rewrite <- (Hvs i w Hi). f_equal. lia.
  - intros a Ha. simpl in Ha. rewrite Hframe, Hother by lia. reflexivity.
Qed.

Lemma fread_words_stored count :
  forall ws p s,
    0 <= p -> p + Z.of_nat count <= MEMORY_SIZE -> Forall word16 ws ->
    exists s1,
      fread_words count (flat_map word_bytes ws) p s
      = Ok (Nat.min count (length ws)) s1 /\
      stored (memory s) (memory s1) p (map swap16 (take count ws)) /\
      same_outside_memory s s1.
Proof.
  induction count as [| count IH]; intros ws p s Hp Hend Hws.
  - exists s. split; [reflexivity |]. split; [apply stored_nil | repeat split].
  - destruct ws as [| w ws].
    + exists s. split; [reflexivity |]. split; [apply stored_nil | repeat split].
    + inversion_clear Hws as [| ? ? Hw Hrest].
      cbn [flat_map word_bytes app fread_words take map length Nat.min].
      unfold bind at 1. rewrite memory_set_in_bounds by lia.
      rewrite (raw_item w Hw), (wrap16_small (swap16 w)) by apply wrap16_range.
      destruct (IH ws (p + 1) (with_memory <[p := swap16 w]> s))
        as (s1 & Hrun & Hst & Hsame); [lia | lia | exact Hrest |].
      exists s1. unfold bind. rewrite Hrun. split; [reflexivity |].
      split; [| exact Hsame].
      eapply stored_cons; [| | exact Hst].
      * apply cell_insert_eq.
      * intros a Ha. apply cell_insert_ne. congruence.
Qed.

Lemma swap_words_stored vs :
  forall p s,
    0 <= p -> p + Z.of_nat (length vs) <= MEMORY_SIZE ->
    (forall (i : nat) v, vs !! i = Some v -> cell (memory s) (p + Z.of_nat i) = v) ->
    exists s2,
      swap_words (length vs) p s = Ok tt s2 /\
      stored (memory s) (memory s2) p (map swap16 vs) /\
      same_outside_memory s s2.
Proof.
  induction vs as [| v vs IH]; intros p s Hp Hend Hcells.
  - exists s. split; [reflexivity |]. split; [apply stored_nil | repeat split].
  - cbn [length swap_words map] in *. unfold bind at 1.
    rewrite memory_get_in_bounds by lia. unfold bind at 1.
    rewrite memory_set_in_bounds by lia.
    assert (Hv : cell (memory s) p = v).
    { rewrite <- (Hcells O v eq_refl). f_equal. lia. }
    rewrite Hv, (wrap16_small (swap16 v)) by apply wrap16_range.
    destruct (IH (p + 1) (with_memory <[p := swap16 v]> s))
      as (s2 & Hrun & Hst & Hsame); [lia | lia | |].
    { intros i w Hi. simpl. rewrite cell_insert_ne by lia.
      rewrite <- (Hcells (S i) w Hi). f_equal. lia. }
    exists s2. split; [exact Hrun |]. split; [| exact Hsame].
    eapply stored_cons; [| | exact Hst].
    + apply cell_insert_eq.
    + intros a Ha. apply cell_insert_ne. congruence.
Qed.

Lemma stored_twice m m1 m2 p vs ws :
  length vs = length ws ->
  stored m m1 p vs -> stored m1 m2 p ws -> stored m m2 p ws.
Proof.
  intros Hlen [_ Hf1] [Hw Hf2]. split; [exact Hw |].
  intros a Ha. rewrite Hf2, Hf1 by lia. reflexivity.
Qed.

Lemma map_swap16_swap16 ws : Forall word16 ws -> map swap16 (map swap16 ws) = ws.
Proof.
  induction 1 as [| w ws Hw _ IH]; simpl; [reflexivity |].
  rewrite swap16_swap16, IH by assumption. reflexivity.
Qed.

Lemma encode_image_origin origin ws :
  word16 origin ->
  exists b0 b1,
    encode_image origin ws = b0 :: b1 :: flat_map word_bytes ws /\
    swap16 (Z.of_N (Byte.to_N b0) + 0x100 * Z.of_N (Byte.to_N b1)) = origin.
Proof.
  intros Ho. do 2 eexists. split; [reflexivity |].
  rewrite raw_item by assumption. apply swap16_swap16, Ho.
Qed.

Lemma loader_stores origin ws s :
  word16 origin -> Forall word16 ws ->
  exists s',
    read_image_file (encode_image origin ws) s = Ok tt s' /\
    stored (memory s) (memory s') origin (take (max_words origin) ws) /\
    reg s' = reg s /\ stdin s' = stdin s /\ stdout s' = stdout s.
Proof.
  intros Ho Hws.
  destruct (encode_image_origin origin ws Ho) as (b0 & b1 & -> & Horigin).
  unfold read_image_file. cbv zeta. rewrite Horigin.
  assert (Hmax : Z.to_nat (wrap16 (UINT16_MAX - origin)) = max_words origin).
  { unfold max_words. rewrite wrap16_small; [reflexivity |].
    unfold UINT16_MAX, word16 in *. lia. }
  rewrite Hmax. unfold max_words, UINT16_MAX, word16 in *.
  set (count := Z.to_nat (0xFFFF - origin)).
  destruct (fread_words_stored count ws origin s)
    as (s1 & Hread & Hst1 & Hsame1);
    [lia | unfold MEMORY_SIZE, UINT16_MAX; lia | exact Hws |].
  unfold bind. rewrite Hread.
  assert (Hlen : Nat.min count (length ws)
                 = length (map swap16 (take count ws))).
  { rewrite length_map, length_take. reflexivity. }
  rewrite Hlen.
  destruct (swap_words_stored (map swap16 (take count ws)) origin s1)
    as (s2 & Hswap & Hst2 & Hsame2).
  - lia.
  - rewrite <- Hlen. unfold MEMORY_SIZE, UINT16_MAX. lia.
  - apply Hst1.
  - exists s2. split; [exact Hswap |]. split.
    + rewrite map_swap16_swap16 in Hst2 by (apply Forall_take, Hws).
      eapply stored_twice; [| exact Hst1 | exact Hst2].
      rewrite length_map. reflexivity.
    + destruct Hsame1 as (? & ? & ?), Hsame2 as (? & ? & ?).
      repeat split; congruence.
Qed.

(** X2.  Loading an image file made of the origin and the words ws, high
    byte first, stores the words in order from the origin on, as many of
    them as there are cells from the origin to the end of the array (the
    rest of the file is dropped without an error); every other cell of
    memory, the registers and the terminal are as before. *)
Theorem read_image_file_loads origin ws s :
  word16 origin -> Forall word16 ws ->
  exists s',
    read_image_file (encode_image origin ws) s = Ok tt s' /\
    stored (memory s) (memory s') origin (take (max_words origin) ws) /\
    reg s' = reg s /\ stdin s' = stdin s /\ stdout s' = stdout s.
Proof. apply loader_stores. Qed.

Lemma read_image_file_loads_witness :
  word16 0x3000 /\ Forall word16 [0xE002; 0xF025] /\
  encode_image 0x3000 [0xE002; 0xF025] = lea_halt_image /\
  exists s',
    read_image_file lea_halt_image power_on = Ok tt s' /\
    stored (memory power_on) (memory s') 0x3000 [0xE002; 0xF025].
Proof.
  assert (Ho : word16 0x3000) by (unfold word16; lia).
  assert (Hws : Forall word16 [0xE002; 0xF025])
    by (repeat constructor; unfold word16; lia).
  split; [exact Ho |]. split; [exact Hws |]. split; [reflexivity |].
  destruct (read_image_file_loads 0x3000 [0xE002; 0xF025] power_on Ho Hws)
    as (s' & Hrun & Hst & _).
  exists s'. split; [exact Hrun | exact Hst].
Defined.

(** ** Invariants of every computation of the machine *)

Create HintDb lc3_inv.

Section Invariant.
(** A property of the machine that survives each kind of elementary
    update survives every computation built from them. *)
Variable P : machine -> Prop.
Hypothesis P_reg : forall r v s, P s -> P (with_reg <[r := wrap16 v]> s).
Hypothesis P_mem : forall a v s, P s -> P (with_memory <[a := wrap16 v]> s).
Hypothesis P_in :
  forall b rest s, stdin s = b :: rest -> P s -> P (with_stdin rest s).
Hypothesis P_out : forall l s, P s -> P (with_stdout (stdout s ++ l) s).

Lemma inv_reg_get r : keeps P (reg_get r).
Proof. intros s H. exact H. Qed.

Lemma inv_reg_set r v : keeps P (reg_set r v).
Proof. intros s H. apply P_reg, H. Qed.

Lemma inv_memory_get a : keeps P (memory_get a).
Proof.
  intros s H. unfold wp, memory_get.
  destruct ((0 <=? a) && (a <? MEMORY_SIZE)); [exact H | exact I].
Qed.

Lemma inv_memory_set a v : keeps P (memory_set a v).
Proof.
  intros s H. unfold wp, memory_set.
  destruct ((0 <=? a) && (a <? MEMORY_SIZE)); [apply P_mem, H | exact I].
Qed.

Lemma inv_getchar : keeps P getchar.
Proof.
  intros s H. unfold wp, getchar.
  destruct (stdin s) as [| b rest] eqn:E; [exact H |].
  apply (P_in b rest s E H).
Qed.

Lemma inv_check_key : keeps P check_key.
Proof. intros s H. unfold wp, check_key. destruct (stdin s); exact H. Qed.

Lemma inv_putc c : keeps P (putc c).
Proof. intros s H. apply P_out, H. Qed.

Lemma inv_put_string str : keeps P (put_string str).
Proof. intros s H. apply P_out, H. Qed.

Hint Resolve keeps_ret keeps_abort keeps_undefined inv_reg_get inv_reg_set
  inv_memory_get inv_memory_set inv_getchar inv_check_key inv_putc
  inv_put_string : lc3_inv.

Ltac inv_step :=
  lazymatch goal with
  | |- keeps _ (bind _ _) => apply keeps_bind; [| intros ?]
  | |- keeps _ (if _ then _ else _) => apply keeps_if
  | |- keeps _ (match ?n with O => _ | S _ => _ end) => destruct n
  | |- keeps _ _ => solve [eauto with lc3_inv]
  end.

Lemma inv_puts str : keeps P (puts str).
Proof. apply inv_put_string. Qed.

Lemma inv_update_flags r : keeps P (update_flags r).
Proof. unfold update_flags. repeat inv_step. Qed.

Lemma inv_mem_read a : keeps P (mem_read a).
Proof. unfold mem_read. repeat inv_step. Qed.

Lemma inv_mem_write a v : keeps P (mem_write a v).
Proof. apply inv_memory_set. Qed.

Lemma inv_puts_loop n : forall c, keeps P (puts_loop n c).
Proof. induction n as [| n IH]; intros c; simpl; repeat inv_step. Qed.

Lemma inv_putsp_loop n : forall c, keeps P (putsp_loop n c).
Proof. induction n as [| n IH]; intros c; simpl; repeat inv_step. Qed.

Hint Resolve inv_puts inv_update_flags inv_mem_read inv_mem_write
  inv_puts_loop inv_putsp_loop : lc3_inv.

Lemma inv_trap_switch instr : keeps P (trap_switch instr).
Proof. unfold trap_switch. repeat inv_step. Qed.

Lemma inv_execute instr : keeps P (execute instr).
Proof.
  pose proof (inv_trap_switch instr).
  unfold execute, case_OP_ADD, case_OP_AND, case_OP_NOT, case_OP_BR,
    case_OP_JMP, case_OP_JSR, case_OP_LD, case_OP_LDI, case_OP_LDR,
    case_OP_LEA, case_OP_ST, case_OP_STI, case_OP_STR, case_OP_TRAP,
    restore_input_buffering.
  cbv zeta. repeat inv_step.
Qed.

Lemma inv_step_all : keeps P step.
Proof. unfold step, fetch. pose proof inv_execute. repeat inv_step. Qed.

Lemma inv_run fuel : keeps P (run fuel).
Proof.
  pose proof inv_step_all.
  induction fuel as [| fuel IH]; simpl; repeat inv_step.
Qed.

Lemma inv_setup : keeps P setup.
Proof. unfold setup. repeat inv_step. Qed.

Lemma inv_fread_words count : forall file p, keeps P (fread_words count file p).
Proof.
  induction count as [| count IH]; intros file p; simpl; [eauto with lc3_inv |].
  destruct file as [| b0 [| b1 rest]]; repeat inv_step.
Qed.

Lemma inv_swap_words read : forall p, keeps P (swap_words read p).
Proof. induction read as [| read IH]; intros p; simpl; repeat inv_step. Qed.

Hint Resolve inv_fread_words inv_swap_words : lc3_inv.

Lemma inv_read_image_file file : keeps P (read_image_file file).
Proof.
  unfold read_image_file. destruct file as [| b0 [| b1 rest]];
    cbv zeta; repeat inv_step.
Qed.

Lemma inv_read_image fs path : keeps P (read_image fs path).
Proof.
  pose proof inv_read_image_file.
  unfold read_image. destruct (fs path); repeat inv_step.
Qed.

Lemma inv_main fs argv fuel : keeps P (main fs argv fuel).
Proof.
  pose proof inv_read_image. pose proof inv_run. pose proof inv_setup.
  unfold main. apply keeps_if; [repeat inv_step |].
  induction (tail argv) as [| path paths IH]; simpl;
    unfold report_failed_image; repeat inv_step.
Qed.

End Invariant.



Lemma output_extends_app out l s :
  output_extends out s -> output_extends out (with_stdout (stdout s ++ l) s).
Proof.
  intros [w Hw]. exists (w ++ l). simpl. rewrite Hw, app_assoc. reflexivity.
Qed.











(** ** Reading back what was written *)

Lemma mem_read_in_bounds a s :
  0 <= a < MEMORY_SIZE -> a <> MR_KBSR ->
  mem_read a s = Ok (cell (memory s) a) s.
Proof.
  intros Ha Hk. rewrite mem_read_plain by assumption.
  apply memory_get_in_bounds, Ha.
Qed.

(** X5.  A word written to a cell of the array other than the keyboard
    status register is what the next read of that address returns (cut to
    16 bits), and reads of the other addresses return what they returned
    before the write. *)
Theorem mem_read_after_write a v s :
  0 <= a < MEMORY_SIZE -> a <> MR_KBSR ->
  exists s1,
    mem_write a v s = Ok tt s1 /\
    mem_read a s1 = Ok (v mod 0x10000) s1 /\
    (forall b, 0 <= b < MEMORY_SIZE -> b <> MR_KBSR -> b <> a ->
       exists w, mem_read b s = Ok w s /\ mem_read b s1 = Ok w s1).
Proof.
  intros Ha Hk. eexists. split; [apply memory_set_in_bounds, Ha |].
  split.
  - rewrite mem_read_in_bounds by assumption. simpl.
    rewrite cell_insert_eq. reflexivity.
  - intros b Hb Hbk Hba. exists (cell (memory s) b).
    rewrite !mem_read_in_bounds by assumption. simpl.
    rewrite cell_insert_ne by congruence. split; reflexivity.
Qed.

Lemma mem_read_after_write_witness :
  exists s1,
    mem_write 0x4000 0x12345 power_on = Ok tt s1 /\
    mem_read 0x4000 s1 = Ok 0x2345 s1.
Proof.
  destruct (mem_read_after_write 0x4000 0x12345 power_on)
    as (s1 & Hw & Hr & _);
    [vm_compute; split; [discriminate | reflexivity] | discriminate |].
  exists s1. split; [exact Hw | exact Hr].
Defined.


(** X7.  Every read of the status register with a keystroke pending
    takes that keystroke: after two such reads in a row the data register
    holds the second keystroke, and the first was never available in it
    to a later read. *)
Theorem status_read_takes_keystroke c1 c2 rest s :
  stdin s = c1 :: c2 :: rest ->
  exists s1 s2,
    mem_read MR_KBSR s = Ok 0x8000 s1 /\
    cell (memory s1) MR_KBDR = Z.of_N (Byte.to_N c1) /\
    mem_read MR_KBSR s1 = Ok 0x8000 s2 /\
    mem_read MR_KBDR s2 = Ok (Z.of_N (Byte.to_N c2)) s2 /\
    stdin s2 = rest.
Proof.
  intros Hin. do 2 eexists.
  split; [apply (mem_read_status_key s c1 (c2 :: rest) Hin) |].
  split; [apply cell_insert_eq |].
  split; [apply (mem_read_status_key _ c2 rest); reflexivity |].
  split; [| reflexivity].
  rewrite mem_read_in_bounds
    by (discriminate || (vm_compute; split; [discriminate | reflexivity])).
  simpl. rewrite cell_insert_eq. reflexivity.
Qed.

Lemma status_read_takes_keystroke_witness :
  exists s1 s2,
    mem_read MR_KBSR (entry_state hello [x41; x42]) = Ok 0x8000 s1 /\
    mem_read MR_KBSR s1 = Ok 0x8000 s2 /\
    mem_read MR_KBDR s2 = Ok 0x42 s2 /\ stdin s2 = [].
Proof.
  destruct (status_read_takes_keystroke x41 x42 [] (entry_state hello [x41; x42]))
    as (s1 & s2 & H1 & _ & H2 & H3 & H4); [reflexivity |].
  exists s1, s2. repeat split; assumption.
Defined.

(** ** Instructions: fetch *)

(** Only the words 0 and 0x8000 can come out of a fetch that polled the
    keyboard, and they decode as BR and RTI. *)
Lemma fetch_no_poll s instr s1 :
  fetch s = Ok instr s1 -> opcode instr <> OP_BR -> opcode instr <> OP_RTI ->
  s1 = with_reg <[R_PC := wrap16 (cell (reg s) R_PC + 1)]> s /\
  instr = cell (memory s) (cell (reg s) R_PC).
Proof.
  unfold fetch, bind at 1, reg_get. unfold bind at 1, reg_set.
  intros Hf Hbr Hrti.
  destruct (Z.eq_dec (cell (reg s) R_PC) MR_KBSR) as [Hk | Hk].
  - exfalso. rewrite Hk in Hf. revert Hf.
    set (s0 := with_reg _ s).
    destruct (stdin s0) as [| c rest] eqn:Hin.
    + rewrite (mem_read_status_idle s0 Hin). intros [= <- _]. apply Hbr. reflexivity.
    + rewrite (mem_read_status_key s0 c rest Hin). intros [= <- _].
      apply Hrti. reflexivity.
  - rewrite mem_read_plain in Hf by assumption. unfold memory_get in Hf.
    destruct (_ && _); [| discriminate]. injection Hf as <- <-. split; reflexivity.
Qed.

Lemma update_flags_result r s :
  exists f, update_flags r s = Ok tt (with_reg <[R_COND := f]> s).
Proof.
  unfold update_flags, bind, reg_get, reg_set.
  destruct (_ =? 0); [| destruct (negb _)]; eexists; reflexivity.
Qed.

(** ** Instructions: ADD, AND, NOT *)

Lemma signed_field_range n x :
  0 < n -> 0 <= x < 2 ^ n -> - 2 ^ (n - 1) <= signed_field n x < 2 ^ (n - 1).
Proof.
  intros Hn Hx. unfold signed_field.
  assert (Hp : 2 ^ n = 2 * 2 ^ (n - 1)).
  { rewrite <- Z.pow_succ_r by lia. f_equal. lia. }
  assert (Hb : Z.testbit x (n - 1) = (2 ^ (n - 1) <=? x)).
  { rewrite Z.testbit_eqb by lia.
    destruct (Z.leb_spec (2 ^ (n - 1)) x).
    - replace (x / 2 ^ (n - 1)) with 1; [reflexivity |].
      apply Z.div_unique with (r := x - 2 ^ (n - 1)); lia.
    - rewrite Z.div_small by lia. reflexivity. }
  rewrite Hb. destruct (Z.leb_spec (2 ^ (n - 1)) x); lia.
Qed.

Lemma sign_extend_signed n x :
  0 < n <= 16 -> 0 <= x < 2 ^ n ->
  sign_extend x n = signed_field n x mod 0x10000.
Proof.
  intros Hn Hx. unfold signed_field.
  assert (2 ^ n <= 2 ^ 16) by (apply Z.pow_le_mono_r; lia).
  change (2 ^ 16) with 0x10000 in *.
  destruct (Z.testbit x (n - 1)) eqn:Hb.
  - rewrite sign_extend_set, fill_value by (lia || assumption).
    apply Z.mod_unique with (q := -1); lia.
  - rewrite sign_extend_clear by (lia || assumption).
    symmetry. apply Z.mod_small. lia.
Qed.

Lemma land_ones_range x n : 0 <= n -> 0 <= Z.land x (Z.ones n) < 2 ^ n.
Proof.
  intros Hn. rewrite Z.land_ones by assumption.
  apply Z.mod_pos_bound. apply Z.pow_pos_nonneg; lia.
Qed.

Lemma imm5_range instr : 0 <= Z.land instr 0x1F < 2 ^ 5.
Proof. apply (land_ones_range instr 5). lia. Qed.

(** The operand the code computes for ADD and AND agrees, modulo 2^16,
    with [second_operand]. *)
Lemma code_operand instr rs :
  (if negb (Z.land (Z.shiftr instr 5) 1 =? 0)
   then sign_extend (Z.land instr 0x1F) 5
   else cell rs (Z.land instr 0x7))
  = (if Z.testbit instr 5
     then second_operand instr rs mod 0x10000
     else second_operand instr rs).
Proof.
  unfold second_operand. rewrite land_shiftr_1, negb_involutive by lia.
  destruct (Z.testbit instr 5); [| reflexivity].
  apply sign_extend_signed; [lia | apply imm5_range].
Qed.

Ltac reduce_opcode H :=
  unfold opcode in H; unfold execute; cbv zeta; rewrite H;
  cbn [Z.eqb OP_ADD OP_AND OP_NOT OP_BR OP_JMP OP_JSR OP_LD OP_LDI OP_LDR
       OP_LEA OP_ST OP_STI OP_STR OP_TRAP Pos.eqb].

Lemma fetched_register x s r :
  r <> R_PC -> cell (reg (with_reg <[R_PC := x]> s)) r = cell (reg s) r.
Proof. intros Hr. simpl. apply cell_insert_ne. congruence. Qed.

(** What an instruction that assigns [v] to DR and sets the flags from it
    leaves behind. *)
Lemma compute_into_DR s instr v :
  exists s',
    bind (reg_set (DR instr) v) (fun _ => update_flags (DR instr))
      (with_reg <[R_PC := wrap16 (cell (reg s) R_PC + 1)]> s) = Ok tt s' /\
    cell (reg s') (DR instr) = v mod 0x10000 /\
    same_registers_but (DR instr) s s' /\
    cell (reg s') R_PC = (cell (reg s) R_PC + 1) mod 0x10000 /\
    memory s' = memory s /\ stdin s' = stdin s /\ stdout s' = stdout s.
Proof.
  unfold bind at 1, reg_set.
  destruct (update_flags_result (DR instr)
              (with_reg <[DR instr := wrap16 v]>
                 (with_reg <[R_PC := wrap16 (cell (reg s) R_PC + 1)]> s)))
    as [f ->].
  eexists. split; [reflexivity |].
  pose proof (DR_range instr) as Hdr. simpl.
  split; [| split; [| split; [| repeat split]]].
  - rewrite cell_insert_ne, cell_insert_eq by (unfold R_COND; lia). reflexivity.
  - intros r Hr Hne. simpl.
    rewrite !cell_insert_ne by (unfold R_COND, R_PC; lia). reflexivity.
  - rewrite !cell_insert_ne, cell_insert_eq by (unfold R_COND, R_PC; lia).
    reflexivity.
Qed.

Lemma then_running (m : M unit) s s' :
  m s = Ok tt s' -> bind m (fun _ => ret true) s = Ok true s'.
Proof. intros H. unfold bind. rewrite H. reflexivity. Qed.

(** X8.  ADD leaves in DR the sum, modulo 2^16, of register SR1 and the
    second operand, which is register SR2 or the 5-bit immediate read as a
    number from -16 to 15; the other general-purpose registers, memory
    and the terminal are unchanged and the program counter has advanced
    by one. *)
Theorem add_step s instr s1 :
  fetch s = Ok instr s1 -> opcode instr = OP_ADD ->
  exists s',
    step s = Ok true s' /\
    cell (reg s') (DR instr)
    = (cell (reg s) (SR1 instr) + second_operand instr (reg s)) mod 0x10000 /\
    (Z.testbit instr 5 = true -> -16 <= second_operand instr (reg s) <= 15) /\
    same_registers_but (DR instr) s s' /\
    cell (reg s') R_PC = (cell (reg s) R_PC + 1) mod 0x10000 /\
    memory s' = memory s /\ stdin s' = stdin s /\ stdout s' = stdout s.
Proof.
  intros Hf Hop. rewrite (step_fetched _ _ _ Hf).
  destruct (fetch_no_poll _ _ _ Hf) as [-> _]; [rewrite Hop; discriminate.. |].
  pose proof (SR1_range instr) as H1. pose proof (land7_range instr) as H2.
  reduce_opcode Hop.
  set (s1 := with_reg _ s).
  set (code_op := if negb (Z.land (Z.shiftr instr 5) 1 =? 0)
                  then sign_extend (Z.land instr 0x1F) 5
                  else cell (reg s) (Z.land instr 0x7)).
  assert (Hcase : case_OP_ADD instr s1
                  = bind (reg_set (DR instr) (cell (reg s) (SR1 instr) + code_op))
                      (fun _ => update_flags (DR instr)) s1).
  { unfold case_OP_ADD, code_op. cbv zeta.
    destruct (negb _); unfold bind, reg_get; cbv beta iota; unfold s1;
      rewrite !fetched_register by (unfold R_PC; lia); reflexivity. }
  destruct (compute_into_DR s instr (cell (reg s) (SR1 instr) + code_op))
    as (s' & Hrun & Hv & Hrest).
  exists s'. split; [apply then_running; rewrite Hcase; exact Hrun |].
  split; [| split; [| exact Hrest]].
  - rewrite Hv. unfold code_op. rewrite code_operand.
    destruct (Z.testbit instr 5); [| reflexivity].
    apply Z.add_mod_idemp_r. lia.
  - intros Hb. unfold second_operand. rewrite Hb.
    pose proof (signed_field_range 5 (Z.land instr 0x1F) ltac:(lia) (imm5_range instr)).
    change (2 ^ (5 - 1)) with 16 in *. lia.
Qed.

Lemma add_step_witness :
  exists s1 s',
    fetch (entry_state alu_program []) = Ok 0x127F s1 /\
    step (entry_state alu_program []) = Ok true s' /\
    cell (reg s') R_R1 = 0xFFFF.
Proof.
  assert (Hf : exists s1, fetch (entry_state alu_program []) = Ok 0x127F s1)
    by (eexists; vm_compute; reflexivity).
  destruct Hf as [s1 Hf]. exists s1.
  destruct (add_step _ _ _ Hf eq_refl) as (s' & Hs & Hv & _).
  exists s'. split; [exact Hf |]. split; [exact Hs |].
  change R_R1 with (DR 0x127F). rewrite Hv. vm_compute. reflexivity.
Defined.

(** X9.  AND leaves in DR the bitwise conjunction of register SR1 and the
    second operand (register SR2, or the sign-extended immediate), a
    16-bit word; everything else is as after ADD. *)
Theorem and_step s instr s1 :
  fetch s = Ok instr s1 -> opcode instr = OP_AND ->
  exists s',
    step s = Ok true s' /\
    word16 (cell (reg s') (DR instr)) /\
    (forall i, 0 <= i < 16 ->
       Z.testbit (cell (reg s') (DR instr)) i
       = Z.testbit (cell (reg s) (SR1 instr)) i
         && Z.testbit (second_operand instr (reg s)) i) /\
    same_registers_but (DR instr) s s' /\
    cell (reg s') R_PC = (cell (reg s) R_PC + 1) mod 0x10000 /\
    memory s' = memory s /\ stdin s' = stdin s /\ stdout s' = stdout s.
Proof.
  intros Hf Hop. rewrite (step_fetched _ _ _ Hf).
  destruct (fetch_no_poll _ _ _ Hf) as [-> _]; [rewrite Hop; discriminate.. |].
  pose proof (SR1_range instr) as H1. pose proof (land7_range instr) as H2.
  reduce_opcode Hop.
  set (s1 := with_reg _ s).
  set (code_op := if negb (Z.land (Z.shiftr instr 5) 1 =? 0)
                  then sign_extend (Z.land instr 0x1F) 5
                  else cell (reg s) (Z.land instr 0x7)).
  assert (Hcase : case_OP_AND instr s1
                  = bind (reg_set (DR instr)
                            (Z.land (cell (reg s) (SR1 instr)) code_op))
                      (fun _ => update_flags (DR instr)) s1).
  { unfold case_OP_AND, code_op. cbv zeta.
    destruct (negb _); unfold bind, reg_get; cbv beta iota; unfold s1;
      rewrite !fetched_register by (unfold R_PC; lia); reflexivity. }
  destruct (compute_into_DR s instr (Z.land (cell (reg s) (SR1 instr)) code_op))
    as (s' & Hrun & Hv & Hrest).
  exists s'. split; [apply then_running; rewrite Hcase; exact Hrun |].
  split; [rewrite Hv; apply wrap16_range |]. split; [| exact Hrest].
  intros i Hi. rewrite Hv. fold (wrap16 (Z.land (cell (reg s) (SR1 instr)) code_op)).
  rewrite wrap16_testbit, Z.land_spec by assumption. f_equal.
  unfold code_op. rewrite code_operand.
  destruct (Z.testbit instr 5); [| reflexivity].
  apply (wrap16_testbit (second_operand instr (reg s)) i Hi).
Qed.

Lemma and_step_witness :
  exists s1 s',
    fetch (after 1 (entry_state alu_program [])) = Ok 0x5260 s1 /\
    cell (reg (after 1 (entry_state alu_program []))) R_R1 = 0xFFFF /\
    step (after 1 (entry_state alu_program [])) = Ok true s' /\
    cell (reg s') R_R1 = 0.
Proof.
  assert (Hf : exists s1, fetch (after 1 (entry_state alu_program []))
                          = Ok 0x5260 s1)
    by (eexists; vm_compute; reflexivity).
  destruct Hf as [s1 Hf]. exists s1.
  destruct (and_step _ _ _ Hf eq_refl) as (s' & Hs & _ & _).
  exists s'. split; [exact Hf |]. split; [vm_compute; reflexivity |].
  split; [exact Hs |].
  revert Hs. vm_compute. intros [= <-]. reflexivity.
Defined.

(** X10.  NOT leaves in DR the 16-bit complement of register SR1: each of
    the bits 0..15 is inverted. *)
Theorem not_step s instr s1 :
  fetch s = Ok instr s1 -> opcode instr = OP_NOT ->
  exists s',
    step s = Ok true s' /\
    word16 (cell (reg s') (DR instr)) /\
    (forall i, 0 <= i < 16 ->
       Z.testbit (cell (reg s') (DR instr)) i
       = negb (Z.testbit (cell (reg s) (SR1 instr)) i)) /\
    (word16 (cell (reg s) (SR1 instr)) ->
       cell (reg s') (DR instr) = 0xFFFF - cell (reg s) (SR1 instr)) /\
    same_registers_but (DR instr) s s' /\
    cell (reg s') R_PC = (cell (reg s) R_PC + 1) mod 0x10000 /\
    memory s' = memory s /\ stdin s' = stdin s /\ stdout s' = stdout s.
Proof.
  intros Hf Hop. rewrite (step_fetched _ _ _ Hf).
  destruct (fetch_no_poll _ _ _ Hf) as [-> _]; [rewrite Hop; discriminate.. |].
  pose proof (SR1_range instr) as H1.
  reduce_opcode Hop.
  set (s1 := with_reg _ s).
  assert (Hcase : case_OP_NOT instr s1
                  = bind (reg_set (DR instr) (Z.lnot (cell (reg s) (SR1 instr))))
                      (fun _ => update_flags (DR instr)) s1).
  { unfold case_OP_NOT. cbv zeta. unfold bind, reg_get; cbv beta iota.
    unfold s1. rewrite !fetched_register by (unfold R_PC; lia). reflexivity. }
  destruct (compute_into_DR s instr (Z.lnot (cell (reg s) (SR1 instr))))
    as (s' & Hrun & Hv & Hrest).
  exists s'. split; [apply then_running; rewrite Hcase; exact Hrun |].
  split; [rewrite Hv; apply wrap16_range |].
  split; [| split; [| exact Hrest]].
  - intros i Hi. rewrite Hv.
    fold (wrap16 (Z.lnot (cell (reg s) (SR1 instr)))).
    rewrite wrap16_testbit, Z.lnot_spec by lia. reflexivity.
  - intros Hw. rewrite Hv. unfold Z.lnot, word16 in *.
    symmetry. apply Z.mod_unique with (q := -1); lia.
Qed.

Lemma not_step_witness :
  exists s1 s',
    fetch (after 2 (entry_state alu_program [])) = Ok 0x927F s1 /\
    cell (reg (after 2 (entry_state alu_program []))) R_R1 = 0 /\
    step (after 2 (entry_state alu_program [])) = Ok true s' /\
    cell (reg s') R_R1 = 0xFFFF.
Proof.
  assert (Hf : exists s1, fetch (after 2 (entry_state alu_program []))
                          = Ok 0x927F s1)
    by (eexists; vm_compute; reflexivity).
  destruct Hf as [s1 Hf]. exists s1.
  destruct (not_step _ _ _ Hf eq_refl) as (s' & Hs & _ & _ & Hv & _).
  exists s'. split; [exact Hf |]. split; [vm_compute; reflexivity |].
  split; [exact Hs |].
  change R_R1 with (DR 0x927F). rewrite Hv; [vm_compute; reflexivity |].
  vm_compute. split; [discriminate | reflexivity].
Defined.

(** ** Instructions: addresses *)

Lemma offset_address b x n :
  0 < n <= 16 -> 0 <= x < 2 ^ n ->
  wrap16 (b + sign_extend x n) = (b + signed_field n x) mod 0x10000.
Proof.
  intros Hn Hx. rewrite sign_extend_signed by assumption.
  unfold wrap16. apply Z.add_mod_idemp_r. lia.
Qed.

Lemma pc_offset_address pc x n :
  0 < n <= 16 -> 0 <= x < 2 ^ n ->
  wrap16 (wrap16 (pc + 1) + sign_extend x n)
  = (pc + 1 + signed_field n x) mod 0x10000.
Proof.
  intros Hn Hx. rewrite offset_address by assumption.
  unfold wrap16. apply Z.add_mod_idemp_l. lia.
Qed.

Lemma off9_range instr : 0 <= Z.land instr 0x1FF < 2 ^ 9.
Proof. apply (land_ones_range instr 9). lia. Qed.

Lemma off6_range instr : 0 <= Z.land instr 0x3F < 2 ^ 6.
Proof. apply (land_ones_range instr 6). lia. Qed.

Lemma off11_range instr : 0 <= Z.land instr 0x7FF < 2 ^ 11.
Proof. apply (land_ones_range instr 11). lia. Qed.

Lemma fetched_pc x s : cell (reg (with_reg <[R_PC := x]> s)) R_PC = x.
Proof. apply cell_insert_eq. Qed.

Lemma word16_mod v : word16 (v mod 0x10000).
Proof. apply wrap16_range. Qed.

(** X11.  LEA leaves in DR the address after the instruction plus the
    signed 9-bit offset, modulo 2^16, without touching memory. *)
Theorem lea_step s instr s1 :
  fetch s = Ok instr s1 -> opcode instr = OP_LEA ->
  exists s',
    step s = Ok true s' /\
    cell (reg s') (DR instr) = pc_relative instr s /\
    -256 <= signed_field 9 (Z.land instr 0x1FF) <= 255 /\
    same_registers_but (DR instr) s s' /\
    cell (reg s') R_PC = (cell (reg s) R_PC + 1) mod 0x10000 /\
    memory s' = memory s /\ stdin s' = stdin s /\ stdout s' = stdout s.
Proof.
  intros Hf Hop. rewrite (step_fetched _ _ _ Hf).
  destruct (fetch_no_poll _ _ _ Hf) as [-> _]; [rewrite Hop; discriminate.. |].
  reduce_opcode Hop.
  set (s1 := with_reg _ s).
  set (v := wrap16 (cell (reg s) R_PC + 1) + sign_extend (Z.land instr 0x1FF) 9).
  assert (Hcase : case_OP_LEA instr s1
                  = bind (reg_set (DR instr) v)
                      (fun _ => update_flags (DR instr)) s1).
  { unfold case_OP_LEA. cbv zeta. unfold bind at 1, reg_get.
    unfold s1. rewrite fetched_pc. reflexivity. }
  destruct (compute_into_DR s instr v) as (s' & Hrun & Hv & Hrest).
  exists s'. split; [apply then_running; rewrite Hcase; exact Hrun |].
  split; [| split; [| exact Hrest]].
  - rewrite Hv. apply (pc_offset_address _ _ 9); [lia | apply off9_range].
  - pose proof (signed_field_range 9 _ ltac:(lia) (off9_range instr)).
    change (2 ^ (9 - 1)) with 256 in *. lia.
Qed.

Lemma lea_step_witness :
  exists s1 s',
    fetch (after 3 (entry_state alu_program [])) = Ok 0xE1FF s1 /\
    step (after 3 (entry_state alu_program [])) = Ok true s' /\
    cell (reg s') R_R0 = 0x3003.
Proof.
  assert (Hf : exists s1, fetch (after 3 (entry_state alu_program []))
                          = Ok 0xE1FF s1)
    by (eexists; vm_compute; reflexivity).
  destruct Hf as [s1 Hf]. exists s1.
  destruct (lea_step _ _ _ Hf eq_refl) as (s' & Hs & Hv & _).
  exists s'. split; [exact Hf |]. split; [exact Hs |].
  change R_R0 with (DR 0xE1FF). rewrite Hv. vm_compute. reflexivity.
Defined.

(** The effective address as the code computes it, in the state the
    fetch leaves. *)
Lemma code_pc_relative instr s :
  wrap16 (cell (reg (with_reg <[R_PC := wrap16 (cell (reg s) R_PC + 1)]> s)) R_PC
          + sign_extend (Z.land instr 0x1FF) 9)
  = pc_relative instr s.
Proof.
  rewrite fetched_pc. apply (pc_offset_address _ _ 9); [lia | apply off9_range].
Qed.

Lemma code_base_offset instr s x :
  wrap16 (cell (reg (with_reg <[R_PC := x]> s)) (SR1 instr)
          + sign_extend (Z.land instr 0x3F) 6)
  = base_offset instr s.
Proof.
  pose proof (SR1_range instr).
  rewrite fetched_register by (unfold R_PC; lia).
  apply (offset_address _ _ 6); [lia | apply off6_range].
Qed.

Ltac first_bind := unfold bind at 1; cbv beta iota.

Section AfterFetch.
Variables (instr : Z) (s : machine).
Let s1 := with_reg <[R_PC := wrap16 (cell (reg s) R_PC + 1)]> s.

Lemma case_OP_LD_plain :
  plain_cell (pc_relative instr s) ->
  case_OP_LD instr s1
  = bind (reg_set (DR instr) (cell (memory s) (pc_relative instr s)))
      (fun _ => update_flags (DR instr)) s1.
Proof.
  intros [Hb Hk]. unfold case_OP_LD. cbv zeta.
  first_bind. unfold reg_get. cbv beta iota. unfold s1 at 1.
  rewrite code_pc_relative. first_bind.
  rewrite mem_read_in_bounds by assumption. reflexivity.
Qed.

Lemma case_OP_LDR_plain :
  plain_cell (base_offset instr s) ->
  case_OP_LDR instr s1
  = bind (reg_set (DR instr) (cell (memory s) (base_offset instr s)))
      (fun _ => update_flags (DR instr)) s1.
Proof.
  intros [Hb Hk]. unfold case_OP_LDR. cbv zeta.
  first_bind. unfold reg_get. cbv beta iota. unfold s1 at 1.
  rewrite code_base_offset. first_bind.
  rewrite mem_read_in_bounds by assumption. reflexivity.
Qed.

Lemma case_OP_LDI_plain :
  plain_cell (pc_relative instr s) ->
  plain_cell (cell (memory s) (pc_relative instr s)) ->
  case_OP_LDI instr s1
  = bind (reg_set (DR instr)
            (cell (memory s) (cell (memory s) (pc_relative instr s))))
      (fun _ => update_flags (DR instr)) s1.
Proof.
  intros [Hb Hk] [Hb2 Hk2]. unfold case_OP_LDI. cbv zeta.
  first_bind. unfold reg_get. cbv beta iota. unfold s1 at 1.
  rewrite code_pc_relative. first_bind.
  rewrite mem_read_in_bounds by assumption. first_bind.
  rewrite mem_read_in_bounds by assumption. reflexivity.
Qed.

Lemma case_OP_ST_in_bounds :
  0 <= pc_relative instr s < MEMORY_SIZE ->
  case_OP_ST instr s1
  = Ok tt (with_memory
             <[pc_relative instr s := wrap16 (cell (reg s) (DR instr))]> s1).
Proof.
  intros Hb. pose proof (DR_range instr). unfold case_OP_ST. cbv zeta.
  first_bind. unfold reg_get. cbv beta iota. unfold s1 at 1.
  rewrite code_pc_relative. first_bind. unfold reg_get. cbv beta iota.
  unfold s1. rewrite fetched_register by (unfold R_PC; lia).
  unfold mem_write. apply memory_set_in_bounds, Hb.
Qed.

Lemma case_OP_STR_in_bounds :
  0 <= base_offset instr s < MEMORY_SIZE ->
  case_OP_STR instr s1
  = Ok tt (with_memory
             <[base_offset instr s := wrap16 (cell (reg s) (DR instr))]> s1).
Proof.
  intros Hb. pose proof (DR_range instr). unfold case_OP_STR. cbv zeta.
  first_bind. unfold reg_get. cbv beta iota. unfold s1 at 1.
  rewrite code_base_offset. first_bind. unfold reg_get. cbv beta iota.
  unfold s1. rewrite fetched_register by (unfold R_PC; lia).
  unfold mem_write. apply memory_set_in_bounds, Hb.
Qed.

Lemma case_OP_STI_in_bounds :
  plain_cell (pc_relative instr s) ->
  0 <= cell (memory s) (pc_relative instr s) < MEMORY_SIZE ->
  case_OP_STI instr s1
  = Ok tt (with_memory
             <[cell (memory s) (pc_relative instr s)
               := wrap16 (cell (reg s) (DR instr))]> s1).
Proof.
  intros [Hb Hk] Ha. pose proof (DR_range instr). unfold case_OP_STI. cbv zeta.
  first_bind. unfold reg_get. cbv beta iota. unfold s1 at 1.
  rewrite code_pc_relative. first_bind.
  rewrite mem_read_in_bounds by assumption. first_bind.
  unfold reg_get. cbv beta iota.
  unfold s1. rewrite fetched_register by (unfold R_PC; lia).
  unfold mem_write. apply memory_set_in_bounds, Ha.
Qed.
End AfterFetch.

(** X12.  LD, LDR and LDI leave in DR the word of the memory cell they
    refer to: the cell at the effective address for LD and LDR, the cell
    whose address is stored there for LDI, provided the cells read are
    cells of the array other than the keyboard status register.  Memory,
    the other registers and the terminal are unchanged. *)
Theorem load_step s instr s1 :
  fetch s = Ok instr s1 ->
  opcode instr = OP_LD \/ opcode instr = OP_LDR \/ opcode instr = OP_LDI ->
  let ea := effective_address instr s in
  let a := if opcode instr =? OP_LDI then cell (memory s) ea else ea in
  plain_cell ea -> plain_cell a ->
  exists s',
    step s = Ok true s' /\
    cell (reg s') (DR instr) = cell (memory s) a mod 0x10000 /\
    same_registers_but (DR instr) s s' /\
    cell (reg s') R_PC = (cell (reg s) R_PC + 1) mod 0x10000 /\
    memory s' = memory s /\ stdin s' = stdin s /\ stdout s' = stdout s.
Proof.
  intros Hf Hop ea a Hea Ha. rewrite (step_fetched _ _ _ Hf).
  destruct (fetch_no_poll _ _ _ Hf) as [-> _];
    [destruct Hop as [-> | [-> | ->]]; discriminate.. |].
  subst ea a. unfold effective_address in *.
  destruct Hop as [Hop | [Hop | Hop]]; rewrite Hop in *;
    cbn [Z.eqb OP_LD OP_LDR OP_LDI OP_STR Pos.eqb orb] in *;
    reduce_opcode Hop;
    match goal with
    | |- context [cell (memory s) ?a mod _] =>
        destruct (compute_into_DR s instr (cell (memory s) a))
          as (s' & Hrun & Hrest)
    end;
    (exists s'; split; [| exact Hrest]); apply then_running; rewrite <- Hrun.
  - apply case_OP_LD_plain; assumption.
  - apply case_OP_LDR_plain; assumption.
  - apply case_OP_LDI_plain; assumption.
Qed.

(** X13.  ST, STR and STI store register SR (bits 11..9) in the memory
    cell they refer to and change nothing else but the program counter:
    no general-purpose register, not the flags, not the terminal.  For
    STI the pointer is read from a cell other than the keyboard status
    register. *)
Theorem store_step s instr s1 :
  fetch s = Ok instr s1 ->
  opcode instr = OP_ST \/ opcode instr = OP_STR \/ opcode instr = OP_STI ->
  let ea := effective_address instr s in
  let a := if opcode instr =? OP_STI then cell (memory s) ea else ea in
  (opcode instr = OP_STI -> plain_cell ea) -> 0 <= a < MEMORY_SIZE ->
  step s =
  Ok true
     (with_memory <[a := cell (reg s) (DR instr) mod 0x10000]>
        (with_reg <[R_PC := (cell (reg s) R_PC + 1) mod 0x10000]> s)).
Proof.
  intros Hf Hop ea a Hea Ha. rewrite (step_fetched _ _ _ Hf).
  destruct (fetch_no_poll _ _ _ Hf) as [-> _];
    [destruct Hop as [-> | [-> | ->]]; discriminate.. |].
  subst ea a. unfold effective_address in *.
  destruct Hop as [Hop | [Hop | Hop]]; rewrite Hop in *;
    cbn [Z.eqb OP_ST OP_STR OP_STI OP_LDR Pos.eqb orb] in *;
    reduce_opcode Hop; apply then_running.
  - apply case_OP_ST_in_bounds; assumption.
  - apply case_OP_STR_in_bounds; assumption.
  - apply case_OP_STI_in_bounds; [apply Hea; reflexivity | assumption].
Qed.

Lemma store_step_witness :
  exists s1 s',
    fetch (after 4 (entry_state alu_program [])) = Ok 0x3001 s1 /\
    cell (reg (after 4 (entry_state alu_program []))) R_R0 = 0x3003 /\
    step (after 4 (entry_state alu_program [])) = Ok true s' /\
    cell (memory s') 0x3006 = 0x3003.
Proof.
  assert (Hf : exists s1, fetch (after 4 (entry_state alu_program []))
                          = Ok 0x3001 s1)
    by (eexists; vm_compute; reflexivity).
  destruct Hf as [s1 Hf]. exists s1.
  pose proof (store_step _ _ _ Hf (or_introl eq_refl)) as Hs. cbv zeta in Hs.
  eexists. split; [exact Hf |]. split; [vm_compute; reflexivity |].
  split.
  - apply Hs; [intros H; discriminate H |].
    vm_compute. split; [discriminate | reflexivity].
  - vm_compute. reflexivity.
Defined.

Lemma load_step_witness :
  exists s1 s',
    fetch (after 5 (entry_state alu_program [])) = Ok 0x2400 s1 /\
    effective_address 0x2400 (after 5 (entry_state alu_program [])) = 0x3006 /\
    cell (memory (after 5 (entry_state alu_program []))) 0x3006 = 0x3003 /\
    step (after 5 (entry_state alu_program [])) = Ok true s' /\
    cell (reg s') R_R2 = 0x3003.
Proof.
  assert (Hf : exists s1, fetch (after 5 (entry_state alu_program []))
                          = Ok 0x2400 s1)
    by (eexists; vm_compute; reflexivity).
  destruct Hf as [s1 Hf]. exists s1.
  pose proof (load_step _ _ _ Hf (or_introl eq_refl)) as Hl. cbv zeta in Hl.
  destruct Hl as (s' & Hs & Hv & _).
  - vm_compute. repeat split; discriminate.
  - vm_compute. repeat split; discriminate.
  - exists s'. split; [exact Hf |]. split; [vm_compute; reflexivity |].
    split; [vm_compute; reflexivity |]. split; [exact Hs |].
    change R_R2 with (DR 0x2400). rewrite Hv. vm_compute. reflexivity.
Defined.

(** ** Instructions: branches and jumps *)

Lemma land_pow2 x k :
  0 <= k -> Z.land x (2 ^ k) = if Z.testbit x k then 2 ^ k else 0.
Proof.
  intros Hk. apply Z.bits_inj'. intros i Hi.
  rewrite Z.land_spec, Z.pow2_bits_eqb by assumption.
  destruct (Z.eqb_spec k i) as [<- | Hne].
  - destruct (Z.testbit x k); [| rewrite Z.bits_0; reflexivity].
    rewrite Z.pow2_bits_true by assumption. reflexivity.
  - rewrite andb_false_r. destruct (Z.testbit x k); [| rewrite Z.bits_0; reflexivity].
    rewrite Z.pow2_bits_false by assumption. reflexivity.
Qed.

Lemma mask_bit instr k :
  0 <= k < 3 ->
  (Z.land (Z.land (Z.shiftr instr 9) 0x7) (2 ^ k) =? 0)
  = negb (Z.testbit instr (k + 9)).
Proof.
  intros Hk. rewrite land_pow2, Z.land_spec, Z.shiftr_spec by lia.
  change 0x7 with (Z.ones 3). rewrite Z.ones_spec_low, andb_true_r by lia.
  destruct (Z.testbit instr (k + 9)); [| reflexivity].
  apply Z.eqb_neq. apply Z.pow_nonzero; lia.
Qed.

(** The test of BR on a one-hot flag register. *)
Lemma mask_test instr cond :
  one_hot cond ->
  negb (Z.land (Z.land (Z.shiftr instr 9) 0x7) cond =? 0)
  = branch_taken instr cond.
Proof.
  unfold branch_taken.
  intros [-> | [-> | ->]].
  - change FL_POS with (2 ^ 0). rewrite (mask_bit instr 0), negb_involutive by lia.
    cbn [Z.add]. change (2 ^ 0 =? FL_NEG) with false.
    change (2 ^ 0 =? FL_ZRO) with false. change (2 ^ 0 =? 2 ^ 0) with true.
    rewrite !andb_false_r, andb_true_r. reflexivity.
  - change FL_ZRO with (2 ^ 1). rewrite (mask_bit instr 1), negb_involutive by lia.
    cbn [Z.add Pos.add Pos.succ]. change (2 ^ 1 =? FL_NEG) with false.
    change (2 ^ 1 =? FL_POS) with false. change (2 ^ 1 =? 2 ^ 1) with true.
    rewrite !andb_false_r, andb_true_r, orb_false_r. reflexivity.
  - change FL_NEG with (2 ^ 2). rewrite (mask_bit instr 2), negb_involutive by lia.
    cbn [Z.add Pos.add Pos.succ]. change (2 ^ 2 =? FL_ZRO) with false.
    change (2 ^ 2 =? FL_POS) with false. change (2 ^ 2 =? 2 ^ 2) with true.
    rewrite !andb_false_r, andb_true_r, !orb_false_r. reflexivity.
Qed.

(** The state BR leaves. *)
Lemma br_state s instr s1 :
  fetch s = Ok instr s1 -> opcode instr = OP_BR ->
  one_hot (cell (reg s) R_COND) ->
  step s =
  Ok true (if branch_taken instr (cell (reg s) R_COND)
           then with_reg <[R_PC := pc_relative instr s]> s1
           else s1).
Proof.
  intros Hf Hop Hcond. rewrite (step_fetched _ _ _ Hf).
  pose proof (fetch_pc _ _ _ Hf) as Hpc.
  pose proof (fetch_other _ _ _ R_COND Hf ltac:(discriminate)) as Hc.
  reduce_opcode Hop. unfold case_OP_BR. cbv zeta.
  first_bind. first_bind. unfold reg_get. cbv beta iota.
  rewrite Hc, (mask_test instr _ Hcond).
  destruct (branch_taken instr (cell (reg s) R_COND)); [| reflexivity].
  first_bind. unfold reg_set. rewrite Hpc.
  rewrite (pc_offset_address _ _ 9) by (lia || apply off9_range).
  reflexivity.
Qed.

(** X14.  BR in a state with a one-hot flag register: the branch is taken
    exactly when the bit n, z or p of the instruction that corresponds to
    the flag is set; then the program counter becomes the address after
    the instruction plus the signed 9-bit offset (-256..255), modulo
    2^16, and otherwise the address after the instruction.  Nothing else
    changes after the fetch. *)
Theorem br_step s instr s1 :
  fetch s = Ok instr s1 -> opcode instr = OP_BR ->
  one_hot (cell (reg s) R_COND) ->
  step s =
  Ok true (if branch_taken instr (cell (reg s) R_COND)
           then with_reg <[R_PC := pc_relative instr s]> s1
           else s1) /\
  cell (reg s1) R_PC = (cell (reg s) R_PC + 1) mod 0x10000 /\
  -256 <= signed_field 9 (Z.land instr 0x1FF) <= 255.
Proof.
  intros Hf Hop Hcond.
  split; [exact (br_state s instr s1 Hf Hop Hcond) |].
  split; [exact (fetch_pc _ _ _ Hf) |].
  pose proof (signed_field_range 9 _ ltac:(lia) (off9_range instr)).
  change (2 ^ (9 - 1)) with 256 in *. lia.
Qed.

Lemma br_step_witness :
  exists s1 s',
    fetch (entry_state branch_program []) = Ok 0x0E01 s1 /\
    one_hot (cell (reg (entry_state branch_program [])) R_COND) /\
    branch_taken 0x0E01 (cell (reg (entry_state branch_program [])) R_COND)
    = true /\
    step (entry_state branch_program []) = Ok true s' /\
    cell (reg s') R_PC = 0x3002.
Proof.
  assert (Hf : exists s1, fetch (entry_state branch_program []) = Ok 0x0E01 s1)
    by (eexists; vm_compute; reflexivity).
  destruct Hf as [s1 Hf]. exists s1.
  assert (Hc : one_hot (cell (reg (entry_state branch_program [])) R_COND))
    by (right; left; reflexivity).
  destruct (br_step _ _ _ Hf eq_refl Hc) as (Hs & _).
  exists (with_reg <[R_PC := pc_relative 0x0E01 (entry_state branch_program [])]> s1).
  split; [exact Hf |]. split; [exact Hc |].
  split; [reflexivity |]. split; [exact Hs |].
  rewrite fetched_pc. vm_compute. reflexivity.
Defined.

(** X15.  A BR instruction with all of n, z, p set is taken in every
    state the machine reaches, and one with none of them set is never
    taken. *)
Theorem br_unconditional s instr s1 :
  reachable s -> fetch s = Ok instr s1 -> opcode instr = OP_BR ->
  (Z.testbit instr 11 = true -> Z.testbit instr 10 = true ->
   Z.testbit instr 9 = true ->
   step s = Ok true (with_reg <[R_PC := pc_relative instr s]> s1)) /\
  (Z.testbit instr 11 = false -> Z.testbit instr 10 = false ->
   Z.testbit instr 9 = false ->
   step s = Ok true s1).
Proof.
  intros Hr Hf Hop. pose proof (reachable_flags_ok s Hr) as Hc.
  pose proof (br_state s instr s1 Hf Hop Hc) as Hs.
  unfold branch_taken in Hs.
  split; intros Hn Hz Hp; rewrite Hn, Hz, Hp in Hs.
  - destruct Hc as [E | [E | E]]; rewrite E in Hs; exact Hs.
  - exact Hs.
Qed.

Lemma br_unconditional_witness :
  exists s1,
    reachable (entry_state branch_program []) /\
    fetch (entry_state branch_program []) = Ok 0x0E01 s1 /\
    step (entry_state branch_program [])
    = Ok true (with_reg
                 <[R_PC := pc_relative 0x0E01 (entry_state branch_program [])]>
                 s1) /\
    pc_relative 0x0E01 (entry_state branch_program []) = 0x3002.
Proof.
  assert (Hf : exists s1, fetch (entry_state branch_program []) = Ok 0x0E01 s1)
    by (eexists; vm_compute; reflexivity).
  destruct Hf as [s1 Hf]. exists s1.
  split; [apply reachable_entry |]. split; [exact Hf |].
  split; [| vm_compute; reflexivity].
  apply (br_unconditional _ _ _ (reachable_entry branch_program []) Hf eq_refl);
    reflexivity.
Defined.

(** The state JSR and JSRR leave, and the state JMP leaves. *)
Lemma jsr_state s instr s1 :
  fetch s = Ok instr s1 -> opcode instr = OP_JSR ->
  let link := wrap16 (cell (reg s) R_PC + 1) in
  let linked := with_reg <[R_R7 := link]> s1 in
  step s =
  Ok true
     (with_reg
        <[R_PC := if Z.testbit instr 11
                  then (cell (reg s) R_PC + 1
                        + signed_field 11 (Z.land instr 0x7FF)) mod 0x10000
                  else wrap16 (cell (reg linked) (SR1 instr))]> linked).
Proof.
  intros Hf Hop link linked. rewrite (step_fetched _ _ _ Hf).
  pose proof (fetch_pc _ _ _ Hf) as Hpc.
  reduce_opcode Hop. apply then_running.
  unfold case_OP_JSR. cbv zeta. rewrite land_shiftr_1, negb_involutive by lia.
  first_bind. unfold reg_get. cbv beta iota. first_bind. unfold reg_set at 1.
  cbv beta iota. rewrite Hpc, wrap16_idem. fold link. fold linked.
  destruct (Z.testbit instr 11).
  - unfold bind, reg_get, reg_set. f_equal. f_equal. f_equal.
    unfold linked. simpl. rewrite cell_insert_ne by discriminate.
    rewrite Hpc. apply (pc_offset_address _ _ 11); [lia | apply off11_range].
  - reflexivity.
Qed.

Lemma jmp_state s instr s1 :
  fetch s = Ok instr s1 -> opcode instr = OP_JMP ->
  step s = Ok true (with_reg <[R_PC := wrap16 (cell (reg s) (SR1 instr))]> s1).
Proof.
  intros Hf Hop. rewrite (step_fetched _ _ _ Hf).
  pose proof (SR1_range instr).
  rewrite <- (fetch_other _ _ _ (SR1 instr) Hf) by (unfold R_PC; lia).
  reduce_opcode Hop. reflexivity.
Qed.

(** X16.  Where JSR and JSRR go: with bit 11 set, to the address after
    the instruction plus the signed 11-bit offset (-1024..1023), modulo
    2^16; with bit 11 clear, to the address in the base register -- except
    that with base register R7 the address used is the return address the
    instruction has just stored there, so the jump goes to the next
    instruction.  The flags, the registers other than R7, memory and the
    terminal are unchanged. *)
Theorem jsr_target s instr s1 :
  fetch s = Ok instr s1 -> opcode instr = OP_JSR ->
  let next := (cell (reg s) R_PC + 1) mod 0x10000 in
  exists s',
    step s = Ok true s' /\
    cell (reg s') R_PC
    = (if Z.testbit instr 11
       then (cell (reg s) R_PC + 1 + signed_field 11 (Z.land instr 0x7FF))
            mod 0x10000
       else if SR1 instr =? R_R7 then next
       else cell (reg s) (SR1 instr) mod 0x10000) /\
    -1024 <= signed_field 11 (Z.land instr 0x7FF) <= 1023 /\
    same_registers_but R_R7 s s' /\
    cell (reg s') R_COND = cell (reg s) R_COND /\
    memory s' = memory s /\ stdin s' = stdin s /\ stdout s' = stdout s.
Proof.
  intros Hf Hop next.
  pose proof (jsr_state s instr s1 Hf Hop) as Hs. cbv zeta in Hs.
  destruct (fetch_no_poll _ _ _ Hf) as [E _]; [rewrite Hop; discriminate.. |].
  eexists. split; [exact Hs |]. subst s1.
  pose proof (SR1_range instr) as Hr.
  split; [| split; [| split; [| repeat split]]].
  - rewrite fetched_pc. destruct (Z.testbit instr 11); [reflexivity |].
    simpl. destruct (Z.eqb_spec (SR1 instr) R_R7) as [-> | Hne].
    + rewrite cell_insert_eq. apply wrap16_idem.
    + rewrite !cell_insert_ne by (unfold R_PC; (lia || congruence)).
      reflexivity.
  - pose proof (signed_field_range 11 _ ltac:(lia) (off11_range instr)).
    change (2 ^ (11 - 1)) with 1024 in *. lia.
  - intros r Hr' Hne. simpl.
    rewrite !cell_insert_ne by (unfold R_PC; (lia || congruence)). reflexivity.
  - simpl. rewrite !cell_insert_ne by discriminate. reflexivity.
Qed.

Lemma jsr_target_witness :
  exists s1 s',
    fetch (entry_state call_program []) = Ok 0x4801 s1 /\
    step (entry_state call_program []) = Ok true s' /\
    cell (reg s') R_PC = 0x3002.
Proof.
  assert (Hf : exists s1, fetch (entry_state call_program []) = Ok 0x4801 s1)
    by (eexists; vm_compute; reflexivity).
  destruct Hf as [s1 Hf]. exists s1.
  pose proof (jsr_target _ _ _ Hf eq_refl) as H. cbv zeta in H.
  destruct H as (s' & Hs & Hpc & _).
  exists s'. split; [exact Hf |]. split; [exact Hs |].
  rewrite Hpc. vm_compute. reflexivity.
Defined.

(** X17.  Call and return: when JSR or JSRR fetched at address A is
    followed, at the place it jumps to, by JMP R7 (RET), the second step
    brings the program counter to A + 1 modulo 2^16, the address after
    the call. *)
Theorem call_then_return s instr s1 :
  fetch s = Ok instr s1 -> opcode instr = OP_JSR ->
  exists s',
    step s = Ok true s' /\
    forall instr2 s2,
      fetch s' = Ok instr2 s2 -> opcode instr2 = OP_JMP ->
      SR1 instr2 = R_R7 ->
      exists s'',
        step s' = Ok true s'' /\
        cell (reg s'') R_PC = (cell (reg s) R_PC + 1) mod 0x10000.
Proof.
  intros Hf Hop.
  pose proof (jsr_state s instr s1 Hf Hop) as Hs. cbv zeta in Hs.
  eexists. split; [exact Hs |].
  intros instr2 s2 Hf2 Hop2 H7.
  pose proof (jmp_state _ _ _ Hf2 Hop2) as Hs2.
  eexists. split; [exact Hs2 |].
  rewrite fetched_pc, H7. simpl.
  rewrite cell_insert_ne, cell_insert_eq by discriminate.
  apply wrap16_idem.
Qed.

Lemma call_then_return_witness :
  exists s1 s2,
    fetch (entry_state call_program []) = Ok 0x4801 s1 /\
    step (entry_state call_program [])
    = Ok true (after 1 (entry_state call_program [])) /\
    fetch (after 1 (entry_state call_program [])) = Ok 0xC1C0 s2 /\
    step (after 1 (entry_state call_program []))
    = Ok true (after 2 (entry_state call_program [])) /\
    cell (reg (after 2 (entry_state call_program []))) R_PC = 0x3001.
Proof.
  assert (Hf : exists s1, fetch (entry_state call_program []) = Ok 0x4801 s1)
    by (eexists; vm_compute; reflexivity).
  destruct Hf as [s1 Hf]. exists s1.
  assert (Hs1 : step (entry_state call_program [])
                = Ok true (after 1 (entry_state call_program [])))
    by (vm_compute; reflexivity).
  assert (Hf2 : exists s2, fetch (after 1 (entry_state call_program []))
                           = Ok 0xC1C0 s2)
    by (eexists; vm_compute; reflexivity).
  destruct Hf2 as [s2 Hf2]. exists s2.
  assert (Hs2 : step (after 1 (entry_state call_program []))
                = Ok true (after 2 (entry_state call_program [])))
    by (vm_compute; reflexivity).
  destruct (call_then_return _ _ _ Hf eq_refl) as (s' & Hs & Hret).
  rewrite Hs1 in Hs. injection Hs as <-.
  destruct (Hret _ _ Hf2 eq_refl eq_refl) as (s'' & Hs'' & Hpc).
  rewrite Hs2 in Hs''. injection Hs'' as <-.
  split; [exact Hf |]. split; [exact Hs1 |]. split; [exact Hf2 |].
  split; [exact Hs2 |]. rewrite Hpc. vm_compute. reflexivity.
Defined.

(** ** Instructions that leave the flags alone *)

Lemma cond_is_reg c s s' : reg s' = reg s -> cond_is c s -> cond_is c s'.
Proof. unfold cond_is. intros ->. auto. Qed.

Lemma keeps_cond_reg_set c r v : r <> R_COND -> keeps (cond_is c) (reg_set r v).
Proof.
  intros Hr s H. unfold wp, reg_set, cond_is in *. simpl.
  rewrite cell_insert_ne by congruence. exact H.
Qed.

#[local] Hint Resolve cond_is_reg : lc3_keeps.
#[local] Hint Extern 1 (keeps (cond_is _) (reg_set (DR ?i) _)) =>
  (apply keeps_cond_reg_set; pose proof (DR_range i); unfold R_COND; lia)
  : lc3_keeps.
#[local] Hint Extern 2 (keeps (cond_is _) (reg_set _ _)) =>
  (apply keeps_cond_reg_set; discriminate) : lc3_keeps.

Lemma existsb_eqb_false x l :
  existsb (Z.eqb x) l = false -> Forall (fun y => x <> y) l.
Proof.
  induction l as [| y l IH]; simpl; intros H; constructor.
  - apply orb_false_elim in H as [H _]. apply Z.eqb_neq, H.
  - apply IH. apply orb_false_elim in H as [_ H]. exact H.
Qed.

Lemma keeps_cond_trap_switch c instr :
  trap_vector instr <> TRAP_GETC -> trap_vector instr <> TRAP_IN ->
  keeps (cond_is c) (trap_switch instr).
Proof.
  unfold trap_vector. intros Hg Hi. unfold trap_switch. cbv zeta.
  destruct (Z.eqb_spec (Z.land instr 0xFF) TRAP_GETC); [contradiction |].
  destruct (Z.eqb_spec (Z.land instr 0xFF) TRAP_IN);
    [do 2 (apply keeps_if; [repeat keeps_step |]); contradiction |].
  unfold puts. repeat keeps_step.
Qed.

Lemma keeps_cond_execute c instr :
  written_register instr = None -> keeps (cond_is c) (execute instr).
Proof.
  unfold written_register. destruct (existsb _ _) eqn:Hops; [discriminate |].
  apply existsb_eqb_false in Hops.
  repeat match goal with
         | H : Forall _ (_ :: _) |- _ => inversion_clear H
         end.
  intros Htrap.
  assert (Hsw : opcode instr = OP_TRAP -> keeps (cond_is c) (trap_switch instr)).
  { intros E. rewrite E in Htrap.
    change (OP_TRAP =? OP_TRAP) with true in Htrap. cbn [andb] in Htrap.
    destruct (existsb _ _) eqn:Hv; [discriminate |].
    apply existsb_eqb_false in Hv.
    inversion_clear Hv as [| ? ? Hg Hv']. inversion_clear Hv' as [| ? ? Hi _].
    apply keeps_cond_trap_switch; assumption. }
  unfold opcode in *. unfold execute. cbv zeta.
  repeat match goal with
         | |- keeps _ (if ?a =? ?b then _ else _) =>
             destruct (Z.eqb_spec a b); [try contradiction |]
         end;
    unfold case_OP_BR, case_OP_JMP, case_OP_JSR, case_OP_ST, case_OP_STI,
      case_OP_STR, case_OP_TRAP, restore_input_buffering; cbv zeta;
    try specialize (Hsw ltac:(assumption));
    repeat keeps_step.
Qed.

(** X18.  An instruction that is not one of those that set the flags
    from a register write (BR, JMP, JSR/JSRR, ST, STI, STR, the traps OUT,
    PUTS, PUTSP and HALT, an undefined trap, a reserved opcode) leaves the
    flag register as it was, also when it ends in the fault -- although
    JSR/JSRR and TRAP do overwrite R7. *)
Theorem flags_unchanged s instr s1 :
  fetch s = Ok instr s1 -> written_register instr = None ->
  (forall running s',
     step s = Ok running s' -> cell (reg s') R_COND = cell (reg s) R_COND) /\
  (forall s',
     step s = Aborted s' -> cell (reg s') R_COND = cell (reg s) R_COND).
Proof.
  intros Hf Hw. rewrite (step_fetched _ _ _ Hf).
  pose proof (fetch_other _ _ _ R_COND Hf ltac:(discriminate)) as Hc.
  pose proof (keeps_cond_execute (cell (reg s) R_COND) instr Hw s1 Hc) as Hk.
  split.
  - intros running s' Hs. exact (wp_Ok _ _ _ _ _ _ Hk Hs).
  - intros s' Hs. exact (wp_Aborted _ _ _ _ _ Hk Hs).
Qed.

Lemma flags_unchanged_witness :
  exists s1 s',
    fetch (entry_state call_program []) = Ok 0x4801 s1 /\
    written_register 0x4801 = None /\
    step (entry_state call_program []) = Ok true s' /\
    cell (reg s') R_R7 = 0x3001 /\ cell (reg s') R_COND = FL_ZRO.
Proof.
  assert (Hf : exists s1, fetch (entry_state call_program []) = Ok 0x4801 s1)
    by (eexists; vm_compute; reflexivity).
  destruct Hf as [s1 Hf]. exists s1.
  assert (Hs : step (entry_state call_program [])
               = Ok true (after 1 (entry_state call_program [])))
    by (vm_compute; reflexivity).
  exists (after 1 (entry_state call_program [])).
  split; [exact Hf |]. split; [reflexivity |]. split; [exact Hs |].
  split; [vm_compute; reflexivity |].
  rewrite (proj1 (flags_unchanged _ _ _ Hf eq_refl) _ _ Hs).
  vm_compute. reflexivity.
Defined.

(** ** Fetching *)

(** X19.  With a 16-bit program counter the fetch fails in exactly one
    case, the program counter 0xFFFF, where it reads outside the array;
    it never raises the fault, and otherwise it advances the program
    counter by one, without wrapping. *)
Theorem fetch_defined s :
  word16 (cell (reg s) R_PC) ->
  (fetch s = Undefined <-> cell (reg s) R_PC = 0xFFFF) /\
  (forall s', fetch s <> Aborted s') /\
  (forall instr s1, fetch s = Ok instr s1 ->
     cell (reg s1) R_PC = cell (reg s) R_PC + 1).
Proof.
  intros Hpc. unfold word16 in Hpc.
  assert (Hcases :
    cell (reg s) R_PC = 0xFFFF /\ fetch s = Undefined \/
    cell (reg s) R_PC <> 0xFFFF /\ exists instr s1, fetch s = Ok instr s1).
  { set (s0 := with_reg <[R_PC := wrap16 (cell (reg s) R_PC + 1)]> s).
    assert (Hfetch : fetch s = mem_read (cell (reg s) R_PC) s0) by reflexivity.
    rewrite Hfetch.
    destruct (Z.eq_dec (cell (reg s) R_PC) MR_KBSR) as [Hk | Hk].
    - right. rewrite Hk. split; [discriminate |].
      destruct (stdin s0) as [| c rest] eqn:Hin.
      + do 2 eexists. apply (mem_read_status_idle s0 Hin).
      + do 2 eexists. apply (mem_read_status_key s0 c rest Hin).
    - rewrite mem_read_plain by assumption.
      destruct (Z.eq_dec (cell (reg s) R_PC) 0xFFFF) as [E | E].
      + left. split; [exact E |]. rewrite E. reflexivity.
      + right. split; [exact E |]. do 2 eexists.
        apply memory_get_in_bounds. unfold MEMORY_SIZE, UINT16_MAX. lia. }
  split; [| split].
  - destruct Hcases as [[E U] | [E (i & s1 & F)]].
    + split; auto.
    + rewrite F. split; [discriminate | contradiction].
  - intros s' Ha. destruct Hcases as [[_ U] | [_ (i & s1 & F)]]; congruence.
  - intros instr s1 Hf. rewrite (fetch_pc _ _ _ Hf).
    destruct Hcases as [[_ U] | [E _]]; [congruence |].
    apply wrap16_small. lia.
Qed.

Lemma fetch_defined_witness :
  word16 (cell (reg (entry_state hello [])) R_PC) /\
  exists s1, fetch (entry_state hello []) = Ok 0xE002 s1 /\
             cell (reg s1) R_PC = 0x3001.
Proof.
  assert (Hw : word16 (cell (reg (entry_state hello [])) R_PC))
    by (vm_compute; split; [discriminate | reflexivity]).
  split; [exact Hw |].
  assert (Hf : exists s1, fetch (entry_state hello []) = Ok 0xE002 s1)
    by (eexists; vm_compute; reflexivity).
  destruct Hf as [s1 Hf]. exists s1. split; [exact Hf |].
  rewrite (proj2 (proj2 (fetch_defined _ Hw)) _ _ Hf). vm_compute. reflexivity.
Defined.

(** ** The loop *)


(** ** Halting *)

Lemma ends_running_ret : ends_running (ret true).
Proof. intros s. reflexivity. Qed.

Lemma ends_running_bind {A} (m : M A) (k : A -> M bool) :
  (forall a, ends_running (k a)) -> ends_running (bind m k).
Proof.
  intros Hk s. apply wp_bind. unfold wp at 1.
  destruct (m s) as [a s' | |]; [apply Hk | exact I | exact I].
Qed.

Lemma ends_running_not_false (m : M bool) s s' :
  ends_running m -> m s = Ok false s' -> False.
Proof. intros Hm Hs. pose proof (wp_Ok _ _ _ _ _ _ (Hm s) Hs). discriminate. Qed.

Ltac ends_running_tac :=
  repeat first [ apply ends_running_ret
               | apply ends_running_bind; intros ? ].

Lemma trap_switch_false instr s s' :
  trap_switch instr s = Ok false s' ->
  trap_vector instr = TRAP_HALT /\
  s' = with_stdout (stdout s ++ halt_notice) s.
Proof.
  unfold trap_switch, trap_vector. cbv zeta.
  repeat match goal with
         | |- (if ?a =? ?b then _ else _) _ = _ -> _ =>
             destruct (Z.eqb_spec a b) as [E | _];
             [try solve [intros H; exfalso; revert H;
                         apply ends_running_not_false; ends_running_tac] |]
         end.
  - intros [= <-]. split; [exact E | reflexivity].
  - discriminate.
Qed.

Lemma execute_false instr s s' :
  execute instr s = Ok false s' ->
  opcode instr = OP_TRAP /\ trap_vector instr = TRAP_HALT /\
  s' = with_stdout (stdout s ++ halt_notice)
         (with_reg <[R_R7 := wrap16 (cell (reg s) R_PC)]> s).
Proof.
  unfold execute, opcode. cbv zeta.
  repeat match goal with
         | |- (if ?a =? ?b then _ else _) _ = _ -> _ =>
             destruct (Z.eqb_spec a b) as [E | _];
             [try solve [intros H; exfalso; revert H;
                         apply ends_running_not_false; ends_running_tac] |]
         end.
  - unfold case_OP_TRAP. first_bind. unfold reg_get. cbv beta iota.
    first_bind. unfold reg_set at 1. cbv beta iota. first_bind.
    destruct (trap_switch instr _) as [running s2 | |] eqn:Hsw;
      [| discriminate..].
    unfold restore_input_buffering, bind, ret. intros [= -> <-].
    apply trap_switch_false in Hsw as [Hv ->]. auto.
  - discriminate.
Qed.

Lemma fetch_stdout s instr s1 : fetch s = Ok instr s1 -> stdout s1 = stdout s.
Proof.
  set (s0 := with_reg <[R_PC := wrap16 (cell (reg s) R_PC + 1)]> s).
  assert (Hfetch : fetch s = mem_read (cell (reg s) R_PC) s0) by reflexivity.
  rewrite Hfetch.
  destruct (Z.eq_dec (cell (reg s) R_PC) MR_KBSR) as [-> | Hk].
  - destruct (stdin s0) as [| c rest] eqn:Hin.
    + rewrite (mem_read_status_idle s0 Hin). intros [= _ <-]. reflexivity.
    + rewrite (mem_read_status_key s0 c rest Hin). intros [= _ <-]. reflexivity.
  - rewrite mem_read_plain by assumption. unfold memory_get.
    destruct (_ && _); [| discriminate]. intros [= _ <-]. reflexivity.
Qed.

Lemma step_false s s' :
  step s = Ok false s' -> stdout s' = stdout s ++ halt_notice.
Proof.
  unfold step. intros H. apply bind_Ok_inv in H as (instr & s1 & Hf & He).
  apply execute_false in He as (_ & _ & ->). simpl.
  rewrite (fetch_stdout _ _ _ Hf). reflexivity.
Qed.

Lemma step_output s running s' :
  step s = Ok running s' -> output_extends (stdout s) s'.
Proof.
  intros Hs.
  assert (K : keeps (output_extends (stdout s)) step).
  { apply inv_step_all; auto using output_extends_app. }
  refine (wp_Ok _ _ _ _ _ _ (K s _) Hs). exists []. symmetry. apply app_nil_r.
Qed.

Lemma run_false_notice fuel s s' :
  run fuel s = Ok false s' ->
  exists written, stdout s' = stdout s ++ written ++ halt_notice.
Proof.
  revert s. induction fuel as [| fuel IH]; intros s; [discriminate |].
  simpl. unfold bind. destruct (step s) as [[] s1 | |] eqn:Hs;
    [| | discriminate..].
  - intros Hrun. destruct (IH _ Hrun) as [w Hw].
    destruct (step_output _ _ _ Hs) as [w1 Hw1].
    exists (w1 ++ w). rewrite Hw, Hw1, <- !app_assoc. reflexivity.
  - intros [= <-]. exists []. apply (step_false _ _ Hs).
Qed.

(** X21.  The loop ends normally only through TRAP HALT: when a run
    stops with [running] cleared, the halt notice is the last thing written,
    after whatever the program wrote before. *)
Theorem run_ends_with_notice fuel s s' :
  run fuel s = Ok false s' ->
  exists written, stdout s' = stdout s ++ written ++ halt_notice.
Proof. apply run_false_notice. Qed.

Lemma run_ends_with_notice_witness :
  exists s',
    run 10 (entry_state hello []) = Ok false s' /\
    stdout s' = list_byte_of_string "HI" ++ halt_notice.
Proof.
  assert (Hrun : run 10 (entry_state hello [])
                 = Ok false (after 10 (entry_state hello [])))
    by (vm_compute; reflexivity).
  exists (after 10 (entry_state hello [])). split; [exact Hrun |].
  destruct (run_ends_with_notice _ _ _ Hrun) as [w Hw].
  vm_compute. reflexivity.
Defined.

(** ** Character input *)

Lemma update_flags_value r s :
  r <> R_COND -> word16 (cell (reg s) r) ->
  update_flags r s
  = Ok tt (with_reg <[R_COND := sign_flag (cell (reg s) r)]> s).
Proof.
  intros Hr Hv. unfold update_flags, bind, reg_get, sign_flag.
  rewrite shiftr15_zero, negb_involutive by exact Hv.
  destruct (_ =? 0); [| destruct (Z.testbit _ _)]; reflexivity.
Qed.

Lemma byte_of_code (b : byte) : byte_of_Z (Z.of_N (Byte.to_N b)) = b.
Proof.
  unfold byte_of_Z. pose proof (byte_code_range b).
  rewrite Z.mod_small, N2Z.id, Byte.of_to_N by lia. reflexivity.
Qed.

Lemma getc_value_word keys : word16 (getc_value keys).
Proof.
  destruct keys as [| c rest]; simpl; unfold word16;
    [| pose proof (byte_code_range c)]; lia.
Qed.

Lemma with_stdin_same s : with_stdin (stdin s) s = s.
Proof. destruct s. reflexivity. Qed.

(** X22.  TRAP GETC takes one keystroke without writing anything: R0
    receives its code (0..255), or 0xFFFF when the input is exhausted, and
    the flags are set from it, so they are NEGATIVE only at the end of the
    input; R7 holds the return address; memory is unchanged. *)
Theorem getc_step s instr s1 :
  fetch s = Ok instr s1 ->
  opcode instr = OP_TRAP -> trap_vector instr = TRAP_GETC ->
  exists s',
    step s = Ok true s' /\
    cell (reg s') R_R0 = getc_value (stdin s) /\
    cell (reg s') R_COND = sign_flag (getc_value (stdin s)) /\
    (cell (reg s') R_COND = FL_NEG <-> stdin s = []) /\
    stdin s' = tail (stdin s) /\ stdout s' = stdout s /\
    memory s' = memory s /\
    cell (reg s') R_R7 = (cell (reg s) R_PC + 1) mod 0x10000.
Proof.
  intros Hf Hop Hv. rewrite (step_fetched _ _ _ Hf), (execute_trap _ _ Hop).
  rewrite (fetch_trap_no_poll _ _ _ Hf Hop). rewrite fetched_pc, wrap16_idem.
  set (s2 := with_reg <[R_R7 := _]> _).
  unfold trap_vector in Hv. unfold trap_switch. cbv zeta. rewrite Hv.
  cbn [Z.eqb TRAP_GETC Pos.eqb].
  assert (Hget : getchar s2
                 = Ok (match stdin s with
                       | [] => EOF | c :: _ => Z.of_N (Byte.to_N c) end)
                      (with_stdin (tail (stdin s)) s2)).
  { unfold getchar. change (stdin s2) with (stdin s).
    destruct (stdin s) as [| c rest] eqn:E; [| reflexivity].
    simpl tail. rewrite <- E. change (stdin s) with (stdin s2).
    rewrite with_stdin_same. reflexivity. }
  first_bind. rewrite Hget. first_bind. unfold reg_set at 1. cbv beta iota.
  assert (Hw : wrap16 (match stdin s with
                       | [] => EOF | c :: _ => Z.of_N (Byte.to_N c) end)
               = getc_value (stdin s)).
  { destruct (stdin s) as [| c rest]; [reflexivity |].
    apply wrap16_small. unfold getc_value. pose proof (byte_code_range c). lia. }
  rewrite Hw. first_bind.
  rewrite update_flags_value;
    [| discriminate | simpl; rewrite cell_insert_eq; apply getc_value_word].
  simpl. rewrite cell_insert_eq.
  eexists. split; [reflexivity |]. simpl.
  rewrite cell_insert_eq.
  rewrite (cell_insert_ne _ R_COND R_R0), cell_insert_eq by discriminate.
  rewrite !(cell_insert_ne _ _ R_R7), cell_insert_eq by discriminate.
  repeat split; try reflexivity.
  - unfold sign_flag. destruct (stdin s) as [| c rest]; [reflexivity |].
    simpl getc_value. pose proof (byte_code_range c).
    rewrite testbit15_ge by lia.
    destruct (_ =? 0); [intros H'; discriminate H' |].
    destruct (Z.leb_spec 0x8000 (Z.of_N (Byte.to_N c)));
      [lia | intros H'; discriminate H'].
  - intros ->. reflexivity.
Qed.

Lemma getc_step_witness :
  exists s1 s',
    fetch (entry_state input_program [x41; x42]) = Ok 0xF020 s1 /\
    step (entry_state input_program [x41; x42]) = Ok true s' /\
    cell (reg s') R_R0 = 0x41 /\ stdin s' = [x42] /\ stdout s' = [].
Proof.
  assert (Hf : exists s1, fetch (entry_state input_program [x41; x42])
                          = Ok 0xF020 s1)
    by (eexists; vm_compute; reflexivity).
  destruct Hf as [s1 Hf]. exists s1.
  destruct (getc_step _ _ _ Hf eq_refl eq_refl)
    as (s' & Hs & H0 & _ & _ & Hin & Hout & _).
  exists s'. split; [exact Hf |]. split; [exact Hs |].
  split; [rewrite H0; reflexivity |].
  split; [rewrite Hin; reflexivity | rewrite Hout; reflexivity].
Defined.

(** X23.  TRAP IN with a 7-bit character pending writes the prompt and
    then echoes the character, and leaves its code in R0 with the flags
    set from it. *)
Theorem in_step s instr s1 c rest :
  fetch s = Ok instr s1 ->
  opcode instr = OP_TRAP -> trap_vector instr = TRAP_IN ->
  stdin s = c :: rest -> Z.of_N (Byte.to_N c) < 0x80 ->
  exists s',
    step s = Ok true s' /\
    cell (reg s') R_R0 = Z.of_N (Byte.to_N c) /\
    cell (reg s') R_COND = sign_flag (Z.of_N (Byte.to_N c)) /\
    stdin s' = rest /\
    stdout s' = stdout s ++ list_byte_of_string "Enter a character: " ++ [c] /\
    memory s' = memory s.
Proof.
  intros Hf Hop Hv Hin Hc. pose proof (byte_code_range c) as Hr.
  rewrite (step_fetched _ _ _ Hf), (execute_trap _ _ Hop).
  rewrite (fetch_trap_no_poll _ _ _ Hf Hop).
  set (s2 := with_reg <[R_R7 := _]> _).
  unfold trap_vector in Hv. unfold trap_switch. cbv zeta. rewrite Hv.
  cbn [Z.eqb TRAP_GETC TRAP_OUT TRAP_PUTS TRAP_IN Pos.eqb].
  assert (Hchar : to_char (Z.of_N (Byte.to_N c)) = Z.of_N (Byte.to_N c)).
  { unfold to_char. rewrite Z.mod_small by lia.
    destruct (Z.ltb_spec (Z.of_N (Byte.to_N c)) 0x80); [reflexivity | lia]. }
  first_bind. unfold put_string at 1. cbv beta iota.
  first_bind. unfold getchar at 1. cbn [stdin with_stdout]. 
  change (stdin s2) with (stdin s). rewrite Hin. cbv beta iota. rewrite Hchar.
  first_bind. unfold putc at 1. cbv beta iota. rewrite byte_of_code.
  first_bind. unfold reg_set at 1. cbv beta iota.
  rewrite (wrap16_small (Z.of_N (Byte.to_N c))) by lia.
  first_bind.
  rewrite update_flags_value;
    [| discriminate
     | simpl; rewrite cell_insert_eq; unfold word16; lia].
  simpl. rewrite cell_insert_eq.
  eexists. split; [reflexivity |]. simpl.
  rewrite (cell_insert_ne _ R_COND R_R0), !cell_insert_eq by discriminate.
  rewrite <- app_assoc. repeat split; reflexivity.
Qed.

Lemma in_step_witness :
  exists s1 s',
    fetch (after 1 (entry_state input_program [x41; x42])) = Ok 0xF023 s1 /\
    stdin (after 1 (entry_state input_program [x41; x42])) = [x42] /\
    step (after 1 (entry_state input_program [x41; x42])) = Ok true s' /\
    cell (reg s') R_R0 = 0x42 /\
    stdout s' = list_byte_of_string "Enter a character: B".
Proof.
  assert (Hf : exists s1,
             fetch (after 1 (entry_state input_program [x41; x42]))
             = Ok 0xF023 s1)
    by (eexists; vm_compute; reflexivity).
  destruct Hf as [s1 Hf]. exists s1.
  destruct (in_step _ _ _ x42 [] Hf eq_refl eq_refl)
    as (s' & Hs & H0 & _ & _ & Hout & _);
    [vm_compute; reflexivity | reflexivity |].
  exists s'. split; [exact Hf |]. split; [vm_compute; reflexivity |].
  split; [exact Hs |]. split; [rewrite H0; reflexivity |].
  rewrite Hout. vm_compute. reflexivity.
Defined.

(** X28.  TRAP OUT writes exactly one byte, the low eight bits of R0
    whatever its high byte holds; it consumes no input and changes neither
    memory nor any register other than the program counter and R7, so the
    flags stay as they were. *)
Theorem out_step s instr s1 :
  fetch s = Ok instr s1 ->
  opcode instr = OP_TRAP -> trap_vector instr = TRAP_OUT ->
  exists s',
    step s = Ok true s' /\
    stdout s' = stdout s ++ [byte_of_Z (Z.land (cell (reg s) R_R0) 0xFF)] /\
    stdin s' = stdin s /\ memory s' = memory s /\
    (forall r, r <> R_PC -> r <> R_R7 -> cell (reg s') r = cell (reg s) r) /\
    cell (reg s') R_R7 = (cell (reg s) R_PC + 1) mod 0x10000.
Proof.
  intros Hf Hop Hv.
  rewrite (step_fetched _ _ _ Hf), (execute_trap _ _ Hop).
  rewrite (fetch_trap_no_poll _ _ _ Hf Hop). rewrite fetched_pc, wrap16_idem.
  set (s2 := with_reg <[R_R7 := _]> _).
  unfold trap_vector in Hv. unfold trap_switch. cbv zeta. rewrite Hv.
  cbn [Z.eqb TRAP_GETC TRAP_OUT Pos.eqb].
  first_bind. unfold reg_get at 1. cbv beta iota.
  first_bind. unfold putc at 1. cbv beta iota.
  rewrite byte_of_Z_to_char, byte_of_Z_low.
  eexists. split; [reflexivity |]. simpl.
  rewrite (cell_insert_ne _ R_R7 R_R0), (cell_insert_ne _ R_PC R_R0)
    by discriminate.
  rewrite cell_insert_eq.
  repeat split; try reflexivity.
  intros r Hpc H7. rewrite !cell_insert_ne by congruence. reflexivity.
Qed.

Lemma out_step_witness :
  exists s1 s',
    fetch (after 1 (entry_state echo_program [x41])) = Ok 0xF021 s1 /\
    step (after 1 (entry_state echo_program [x41])) = Ok true s' /\
    stdout s' = [x41] /\ stdin s' = [].
Proof.
  assert (Hf : exists s1, fetch (after 1 (entry_state echo_program [x41]))
                          = Ok 0xF021 s1)
    by (eexists; vm_compute; reflexivity).
  destruct Hf as [s1 Hf]. exists s1.
  destruct (out_step _ _ _ Hf eq_refl eq_refl)
    as (s' & Hs & Hout & Hin & _).
  exists s'. split; [exact Hf |]. split; [exact Hs |].
  split; [rewrite Hout | rewrite Hin]; vm_compute; reflexivity.
Defined.

(** ** Packed strings *)

Lemma byte_code_nonzero (b : byte) : b <> x00 -> Z.of_N (Byte.to_N b) <> 0.
Proof.
  intros Hb E. apply Hb. rewrite <- (byte_of_code b), E. reflexivity.
Qed.

Lemma putsp_bytes_single (b : byte) :
  b <> x00 ->
  putsp_bytes (Z.of_N (Byte.to_N b)) = [b] /\ nonzero (Z.of_N (Byte.to_N b)).
Proof.
  intros Hb. pose proof (byte_code_range b) as Hr. split.
  - unfold putsp_bytes. rewrite byte_of_Z_low, byte_of_code.
    rewrite Z.shiftr_div_pow2, Z.div_small by lia. reflexivity.
  - apply byte_code_nonzero, Hb.
Qed.

Lemma putsp_bytes_pair (b0 b1 : byte) :
  b0 <> x00 -> b1 <> x00 ->
  let w := Z.of_N (Byte.to_N b0) + 0x100 * Z.of_N (Byte.to_N b1) in
  putsp_bytes w = [b0; b1] /\ nonzero w.
Proof.
  intros H0 H1 w. pose proof (byte_code_range b0) as R0.
  pose proof (byte_code_range b1) as R1.
  pose proof (byte_code_nonzero b1 H1) as N1.
  assert (Hlo : w mod 0x100 = Z.of_N (Byte.to_N b0)).
  { symmetry. apply Z.mod_unique with (q := Z.of_N (Byte.to_N b1)); unfold w; lia. }
  assert (Hhi : Z.shiftr w 8 = Z.of_N (Byte.to_N b1)).
  { rewrite Z.shiftr_div_pow2 by lia. symmetry.
    apply Z.div_unique with (r := Z.of_N (Byte.to_N b0)); unfold w; lia. }
  split; [| unfold nonzero, w; lia].
  unfold putsp_bytes. rewrite byte_of_Z_low, Hhi.
  change 0xFF with (Z.ones 8). rewrite Z.land_ones by lia.
  change (2 ^ 8) with 0x100. rewrite (Z.mod_small (Z.of_N (Byte.to_N b1))) by lia.
  destruct (Z.eqb_spec (Z.of_N (Byte.to_N b1)) 0); [contradiction |].
  rewrite byte_of_code. f_equal.
  unfold byte_of_Z. rewrite Hlo. fold (byte_of_Z (Z.of_N (Byte.to_N b0))).
  rewrite <- (byte_of_code b0) at 2. unfold byte_of_Z.
  rewrite (Z.mod_small (Z.of_N (Byte.to_N b0))) by lia. reflexivity.
Qed.

Lemma pack_string_unpacks bs :
  Forall (fun b => b <> x00) bs ->
  flat_map putsp_bytes (pack_string bs) = bs /\
  Forall nonzero (pack_string bs).
Proof.
  enough (H : (Forall (fun b => b <> x00) bs ->
               flat_map putsp_bytes (pack_string bs) = bs /\
               Forall nonzero (pack_string bs)) /\
              (forall b, Forall (fun b => b <> x00) (b :: bs) ->
               flat_map putsp_bytes (pack_string (b :: bs)) = b :: bs /\
               Forall nonzero (pack_string (b :: bs)))) by apply H.
  induction bs as [| b1 bs [IH0 IH1]].
  - split; [intros _; split; [reflexivity | constructor] |].
    intros b Hb. inversion_clear Hb as [| ? ? Hb0 _].
    destruct (putsp_bytes_single b Hb0) as [E N].
    cbn [pack_string flat_map]. rewrite E.
    split; [reflexivity | repeat constructor; exact N].
  - split; [apply IH1 |].
    intros b0 Hb. inversion_clear Hb as [| ? ? Hb0 Hb'].
    inversion Hb' as [| ? ? Hb1 Hrest]; subst.
    destruct (putsp_bytes_pair b0 b1 Hb0 Hb1) as [E N].
    destruct (IH0 Hrest) as [E' N'].
    cbn [pack_string flat_map]. rewrite E, E'.
    split; [reflexivity | constructor; assumption].
Qed.

(** X24.  TRAP PUTSP prints a packed string as it was packed: when the
    memory from the address in R0 holds the words of a byte string without
    zero bytes, two bytes per word with the first in the low byte, followed
    by a zero word, the trap writes exactly that byte string and changes
    nothing else. *)
Theorem putsp_prints_packed s instr bs :
  trap_vector instr = TRAP_PUTSP ->
  Forall (fun b => b <> x00) bs ->
  0 <= cell (reg s) R_R0 ->
  cell (reg s) R_R0 + Z.of_nat (length (pack_string bs)) < MEMORY_SIZE ->
  cells_at (memory s) (cell (reg s) R_R0) (S (length (pack_string bs)))
  = pack_string bs ++ [0] ->
  trap_switch instr s = Ok true (with_stdout (stdout s ++ bs) s).
Proof.
  intros Hv Hbs Hc Hend Hcells.
  rewrite cells_at_snoc in Hcells. apply app_inj_tail in Hcells as [Hws Hz].
  destruct (pack_string_unpacks bs Hbs) as [Hout Hnz].
  rewrite (trap_switch_putsp s instr (length (pack_string bs)) Hv Hc Hend);
    rewrite ?Hws; try assumption.
  rewrite Hout. reflexivity.
Qed.

Lemma putsp_prints_packed_witness :
  pack_string (list_byte_of_string "Hi!") = [0x6948; 0x0021] /\
  trap_switch 0xF024 (after 1 (entry_state packed_program []))
  = Ok true (with_stdout
               (stdout (after 1 (entry_state packed_program []))
                ++ list_byte_of_string "Hi!")
               (after 1 (entry_state packed_program []))).
Proof.
  split; [reflexivity |].
  apply (putsp_prints_packed _ 0xF024 (list_byte_of_string "Hi!")).
  - reflexivity.
  - repeat constructor; discriminate.
  - vm_compute. discriminate.
  - vm_compute. reflexivity.
  - vm_compute. reflexivity.
Defined.

(** ** The program as a whole *)

Lemma read_image_opened fs path file s :
  fs path = Some file ->
  exists s', read_image fs path s = Ok 1 s' /\ same_outside_memory s s'.
Proof.
  intros Hfs. unfold read_image. rewrite Hfs.
  destruct (read_image_file_ok file s) as (s' & Hrun & Hsame).
  exists s'. unfold bind. rewrite Hrun. split; [reflexivity | exact Hsame].
Qed.

Lemma load_images_missing fs before :
  forall s path rest k,
    Forall (opens fs) before -> fs path = None ->
    exists s',
      load_images fs (before ++ path :: rest) k s = Ok (Some 1) s' /\
      stdout s' = stdout s
                  ++ list_byte_of_string
                       ("failed to load image: " ++ path ++ newline) /\
      reg s' = reg s /\ stdin s' = stdin s.
Proof.
  induction before as [| p before IH]; intros s path rest k Hopen Hpath.
  - simpl. unfold read_image. rewrite Hpath. eexists.
    split; [reflexivity |]. repeat split.
  - inversion_clear Hopen as [| ? ? Hp Hrest]. unfold opens in Hp.
    destruct (fs p) as [file |] eqn:Hfs; [| contradiction].
    destruct (read_image_opened fs p file s Hfs) as (s1 & Hrun & Hr & Hi & Ho).
    destruct (IH s1 path rest k Hrest Hpath) as (s' & Hload & Hout & Hreg & Hin).
    exists s'. cbn [app load_images]. unfold bind at 1. rewrite Hrun.
    cbn [Z.eqb]. split; [exact Hload |].
    rewrite Hout, Hreg, Hin, Ho, Hr, Hi. repeat split.
Qed.

(** X25.  When one of the image paths on the command line cannot be
    opened, the program exits with code 1 after printing that path (the
    first such one) in the failure message; the machine was never
    started: registers and input are untouched and nothing else was
    printed, whatever the images named before it put into memory. *)
Theorem main_missing_image fs argv fuel s before path rest :
  tail argv = before ++ path :: rest ->
  Forall (opens fs) before -> fs path = None ->
  exists s',
    main fs argv fuel s = Ok (Some 1) s' /\
    stdout s' = stdout s
                ++ list_byte_of_string
                     ("failed to load image: " ++ path ++ newline) /\
    reg s' = reg s /\ stdin s' = stdin s.
Proof.
  intros Htail Hopen Hpath. unfold main.
  destruct argv as [| a0 paths]; [destruct before; discriminate |].
  simpl in Htail. subst paths.
  destruct (Z.ltb_spec (Z.of_nat (length (a0 :: before ++ path :: rest))) 2)
    as [Hlen | _].
  - exfalso. simpl in Hlen. rewrite length_app in Hlen. simpl in Hlen. lia.
  - simpl tail. apply load_images_missing; assumption.
Qed.

Lemma main_missing_image_witness :
  exists s',
    main hello_fs ["lc3"; "hello.obj"; "absent.obj"]%string 10 power_on
    = Ok (Some 1) s' /\
    stdout s' = list_byte_of_string ("failed to load image: absent.obj" ++ newline) /\
    reg s' = reg power_on.
Proof.
  destruct (main_missing_image hello_fs
              ["lc3"; "hello.obj"; "absent.obj"]%string 10 power_on
              ["hello.obj"%string] "absent.obj" [])
    as (s' & Hmain & Hout & Hreg & _).
  - reflexivity.
  - repeat constructor. discriminate.
  - reflexivity.
  - exists s'. split; [exact Hmain |]. split; [exact Hout | exact Hreg].
Defined.

Lemma load_images_exit_zero fs paths :
  forall s s' k,
    load_images fs paths k s = Ok (Some 0) s' ->
    Forall (opens fs) paths /\ exists s0, k s0 = Ok (Some 0) s'.
Proof.
  induction paths as [| p paths IH]; intros s s' k Hload.
  - split; [constructor | exists s; exact Hload].
  - cbn [load_images] in Hload. unfold bind at 1, read_image in Hload.
    destruct (fs p) as [file |] eqn:Hfs.
    + unfold bind at 1 in Hload.
      destruct (read_image_file file s) as [[] s1 | |]; [| discriminate..].
      cbn in Hload. apply IH in Hload as [Hall Hk].
      split; [constructor; [unfold opens; congruence | exact Hall] | exact Hk].
    + discriminate Hload.
Qed.

Lemma setup_stdout s : exists s0, setup s = Ok tt s0 /\ stdout s0 = stdout s.
Proof. eexists. split; reflexivity. Qed.

(** X26.  The program exits with code 0 only if there was at least one
    image argument, every image could be opened, and the machine executed
    TRAP HALT: the halt notice is the last thing it printed. *)
Theorem main_exit_zero fs argv fuel s s' :
  main fs argv fuel s = Ok (Some 0) s' ->
  (2 <= length argv)%nat /\ Forall (opens fs) (tail argv) /\
  exists written, stdout s' = written ++ halt_notice.
Proof.
  unfold main.
  destruct (Z.ltb_spec (Z.of_nat (length argv)) 2) as [Hlen | Hlen];
    [discriminate |].
  intros Hmain. split; [lia |].
  apply load_images_exit_zero in Hmain as [Hall (s0 & Hk)].
  split; [exact Hall |].
  destruct (setup_stdout s0) as (s1 & Hs1 & _).
  unfold bind in Hk. rewrite Hs1 in Hk.
  destruct (run fuel s1) as [[] s2 | |] eqn:Hrun; try discriminate.
  injection Hk as <-.
  destruct (run_false_notice _ _ _ Hrun) as [w Hw].
  exists (stdout s1 ++ w). rewrite Hw, app_assoc. reflexivity.
Qed.

Lemma main_exit_zero_witness :
  exists s',
    main hello_fs ["lc3"; "hello.obj"]%string 10 power_on = Ok (Some 0) s' /\
    stdout s' = halt_notice.
Proof.
  eexists. split; [vm_compute; reflexivity |].
  assert (Hmain : exists s',
             main hello_fs ["lc3"; "hello.obj"]%string 10 power_on
             = Ok (Some 0) s')
    by (eexists; vm_compute; reflexivity).
  destruct Hmain as [s' Hmain].
  destruct (main_exit_zero _ _ _ _ _ Hmain) as (_ & _ & _).
  reflexivity.
Defined.

(** ** Several images *)

Lemma take_all (ws : list Z) origin :
  origin + Z.of_nat (length ws) <= 0xFFFF -> take (max_words origin) ws = ws.
Proof.
  intros H. apply take_ge. unfold max_words, UINT16_MAX. lia.
Qed.

(** X27.  Images loaded one after the other are overlaid: after loading
    two images that fit into the array, the cells of the second hold
    the second image, the cells of the first that the second does not
    cover hold the first, and all other cells are unchanged. *)
Theorem later_image_overwrites fs p1 p2 o1 ws1 o2 ws2 s :
  fs p1 = Some (encode_image o1 ws1) -> fs p2 = Some (encode_image o2 ws2) ->
  word16 o1 -> word16 o2 -> Forall word16 ws1 -> Forall word16 ws2 ->
  o1 + Z.of_nat (length ws1) <= 0xFFFF ->
  o2 + Z.of_nat (length ws2) <= 0xFFFF ->
  exists s',
    bind (read_image fs p1) (fun _ => read_image fs p2) s = Ok 1 s' /\
    (forall (i : nat) w, ws2 !! i = Some w ->
       cell (memory s') (o2 + Z.of_nat i) = w) /\
    (forall (i : nat) w, ws1 !! i = Some w ->
       o1 + Z.of_nat i < o2 \/ o2 + Z.of_nat (length ws2) <= o1 + Z.of_nat i ->
       cell (memory s') (o1 + Z.of_nat i) = w) /\
    (forall a,
       a < o1 \/ o1 + Z.of_nat (length ws1) <= a ->
       a < o2 \/ o2 + Z.of_nat (length ws2) <= a ->
       cell (memory s') a = cell (memory s) a).
Proof.
  intros Hf1 Hf2 Ho1 Ho2 Hw1 Hw2 Hfit1 Hfit2.
  destruct (loader_stores o1 ws1 s Ho1 Hw1) as (s1 & Hrun1 & [Hst1 Hfr1] & _).
  destruct (loader_stores o2 ws2 s1 Ho2 Hw2) as (s2 & Hrun2 & [Hst2 Hfr2] & _).
  rewrite take_all in Hst1, Hfr1, Hst2, Hfr2 by assumption.
  exists s2. split; [| split; [exact Hst2 | split]].
  - unfold bind, read_image. rewrite Hf1. unfold bind. rewrite Hrun1.
    cbn. rewrite Hf2. unfold bind. rewrite Hrun2. reflexivity.
  - intros i w Hi Hout. rewrite Hfr2 by exact Hout. apply Hst1, Hi.
  - intros a Ha1 Ha2. rewrite Hfr2, Hfr1 by assumption. reflexivity.
Qed.

Lemma later_image_overwrites_witness :
  exists s',
    bind (read_image two_images "first.obj")
      (fun _ => read_image two_images "second.obj") power_on = Ok 1 s' /\
    cells_at (memory s') 0x3000 4 = [1; 2; 7; 8].
Proof.
  destruct (later_image_overwrites two_images "first.obj" "second.obj"
              0x3000 [1; 2; 3] 0x3002 [7; 8] power_on)
    as (s' & Hrun & H2 & H1 & _);
    [ reflexivity | reflexivity | unfold word16; lia | unfold word16; lia
    | repeat constructor; unfold word16; lia
    | repeat constructor; unfold word16; lia
    | simpl; lia | simpl; lia | ].
  exists s'. split; [exact Hrun |].
  assert (Ha : cell (memory s') 0x3000 = 1)
    by exact (H1 0%nat 1 eq_refl (or_introl eq_refl)).
  assert (Hb : cell (memory s') 0x3001 = 2)
    by exact (H1 1%nat 2 eq_refl (or_introl eq_refl)).
  assert (Hc : cell (memory s') 0x3002 = 7) by exact (H2 0%nat 7 eq_refl).
  assert (Hd : cell (memory s') 0x3003 = 8) by exact (H2 1%nat 8 eq_refl).
  change (cells_at (memory s') 0x3000 4)
    with [cell (memory s') 0x3000; cell (memory s') 0x3001;
          cell (memory s') 0x3002; cell (memory s') 0x3003].
  rewrite Ha, Hb, Hc, Hd. reflexivity.
Defined.
